(** * Image resizer: a shallow embedding of [src/ImageResizer.jsx]

    The component keeps ten React state cells and its event handlers around
    one helper, [resizeToBlobUrl], that computes the target size, draws on
    the canvas and encodes.  The development below follows the source handler by
    handler.

    Conventions of the embedding.
    - A JavaScript number is a [num]: a binary64 number given by the rational
      it denotes, [NaN], [+Infinity] or [-Infinity].  A product or a quotient
      of finite numbers is the exact result rounded to the nearest binary64
      number, a tie going to the even significand, and an infinity from
      [2 ^ 1024] on.  The two zeros are identified; every divisor the
      component ever builds is a quotient of two natural dimensions, hence
      never a negative zero.
    - The natural dimensions of an image are [unsigned long] attributes of the
      DOM: integers below [2 ^ 32].
    - A handler closes over the state of the render it was created in.  It
      reads that snapshot and queues setter calls, which React applies when
      the handler is done.  A handler is therefore a function from the
      snapshot to a list of [Setter]s, and [commit] applies the queue.
    - What a handler does to the page (alert, new tab, download anchor,
      object URLs, canvas) is recorded in a [Dom] value. *)

From Stdlib Require Import ZArith QArith Qround Qpower List String Ascii Bool Lia.
From Stdlib Require DecimalString DecimalPos.
From Stdlib Require Import Lqa.
Import ListNotations.

Local Open Scope Z_scope.

(** ** JavaScript numbers *)

Module JS.

Inductive num : Type :=
| Fin (q : Q)
| PInf
| NInf
| NaN.

Definition of_Z (z : Z) : num := Fin (inject_Z z).
Definition of_N (n : N) : num := of_Z (Z.of_N n).

(** The sign of a rational, as a comparison with zero. *)
Definition Qsign (q : Q) : comparison := (Qnum q ?= 0)%Z.

(** [Infinity] with the sign of a comparison against zero, zero being the
    positive zero. *)
Definition inf_of (c : comparison) : num :=
  match c with Lt => NInf | _ => PInf end.

Definition flip (x : num) : num :=
  match x with PInf => NInf | NInf => PInf | _ => x end.

Definition neg (x : num) : num :=
  match x with
  | Fin q => Fin (- q)
  | PInf => NInf
  | NInf => PInf
  | NaN => NaN
  end.

(** *** Rounding to binary64 *)

Definition pow2 (e : Z) : Q := Qpower 2 e.

(** The integer part of the binary logarithm of a positive rational. *)
Definition Qlog2 (q : Q) : Z :=
  let k := Z.log2 (Qnum q) - Z.log2 (Zpos (Qden q)) in
  if Qle_bool (pow2 k) q then k else k - 1.

(** The nearest integer, a tie going to the even one. *)
Definition rne (x : Q) : Z :=
  let f := Qfloor x in
  match Qcompare (x - inject_Z f) (1 # 2) with
  | Lt => f
  | Gt => f + 1
  | Eq => if Z.even f then f else f + 1
  end.

(** The exponent of the last place of the binary64 numbers around a positive
    [q]: 53 significant bits, and never below the subnormal step. *)
Definition expo (q : Q) : Z := Z.max (Qlog2 q - 52) (-1074).

(** A positive rational rounded to 53 significant bits. *)
Definition round53 (q : Q) : Q :=
  (inject_Z (rne (q / pow2 (expo q))) * pow2 (expo q))%Q.

(** The binary64 number nearest to a rational (round to nearest, ties to
    even), an infinity from [2 ^ 1024] on. *)
Definition rnd (q : Q) : num :=
  match Qcompare q 0 with
  | Eq => Fin 0
  | Gt => let r := round53 q in
          if Qle_bool (pow2 1024) r then PInf else Fin (Qred r)
  | Lt => let r := round53 (- q) in
          if Qle_bool (pow2 1024) r then NInf else Fin (Qred (- r))
  end.

(** The largest binary64 number. *)
Definition max_value : Q := inject_Z ((2 ^ 53 - 1) * 2 ^ 971).

(** A finite [num] stands for a binary64 number, whose magnitude is at most
    [max_value].  A product and a quotient read each operand within that
    range: [clamp] is the identity on every binary64 number. *)
Definition clamp (q : Q) : Q :=
  if Qle_bool max_value q then max_value
  else if Qle_bool q (- max_value) then (- max_value)%Q
  else q.

(** [x * y] *)
Definition mul (x y : num) : num :=
  match x, y with
  | NaN, _ | _, NaN => NaN
  | Fin a, Fin b => rnd (clamp a * clamp b)
  | Fin a, PInf | PInf, Fin a =>
      match Qsign a with Eq => NaN | Gt => PInf | Lt => NInf end
  | Fin a, NInf | NInf, Fin a =>
      match Qsign a with Eq => NaN | Gt => NInf | Lt => PInf end
  | PInf, PInf | NInf, NInf => PInf
  | PInf, NInf | NInf, PInf => NInf
  end.

(** [x / y] *)
Definition div (x y : num) : num :=
  match x, y with
  | NaN, _ | _, NaN => NaN
  | Fin a, Fin b =>
      match Qsign b with
      | Eq => match Qsign a with Eq => NaN | Gt => PInf | Lt => NInf end
      | _ => rnd (clamp a / clamp b)
      end
  | Fin _, PInf | Fin _, NInf => Fin 0
  | PInf, Fin b => inf_of (Qsign b)
  | NInf, Fin b => flip (inf_of (Qsign b))
  | _, _ => NaN
  end.

(** [Math.round]: the nearest integer, a tie going up. *)
Definition Math_round (x : num) : num :=
  match x with
  | Fin q => of_Z (Qfloor (q + (1 # 2)))
  | _ => x
  end.

(** ToBoolean on a number: [NaN] and zero are falsy. *)
Definition truthy (x : num) : bool :=
  match x with
  | NaN => false
  | Fin q => negb (Qnum q =? 0)%Z
  | _ => true
  end.

(** [x || 0] *)
Definition or_zero (x : num) : num := if truthy x then x else Fin 0.

(** [1 <= x], as a boolean; false on [NaN]. *)
Definition ge_one (x : num) : bool :=
  match x with
  | Fin q => match (1 ?= q)%Q with Gt => false | _ => true end
  | PInf => true
  | _ => false
  end.

(** [x <= y] on numbers other than [NaN]. *)
Definition num_le (x y : num) : Prop :=
  match x, y with
  | NaN, _ | _, NaN => False
  | NInf, _ => True
  | _, PInf => True
  | Fin a, Fin b => (a <= b)%Q
  | _, _ => False
  end.

End JS.

Import JS.

(** ** Strings and numbers

    [Number(v)] on the string of an input element, and the string a template
    literal makes of a number. *)

Module Conv.

(** One-byte white space: TAB, LF, VT, FF, CR and SPACE. *)
Definition is_ws (c : ascii) : bool :=
  match N_of_ascii c with
  | 9%N | 10%N | 11%N | 12%N | 13%N | 32%N => true
  | _ => false
  end.

(** Two-byte white space: U+00A0. *)
Definition is_ws2 (a b : ascii) : bool :=
  (N_of_ascii a =? 194)%N && (N_of_ascii b =? 160)%N.

(** Three-byte white space: U+1680, U+2000 to U+200A, U+2028, U+2029,
    U+202F, U+205F, U+3000 and U+FEFF. *)
Definition is_ws3 (a b c : ascii) : bool :=
  let x := N_of_ascii a in
  let y := N_of_ascii b in
  let z := N_of_ascii c in
  ((x =? 225) && (y =? 154) && (z =? 128)
   || (x =? 226) && (y =? 128)
      && ((128 <=? z) && (z <=? 138) || (z =? 168) || (z =? 169) || (z =? 175))
   || (x =? 226) && (y =? 129) && (z =? 159)
   || (x =? 227) && (y =? 128) && (z =? 128)
   || (x =? 239) && (y =? 187) && (z =? 191))%N.

(** White space dropped from the front; with [back] the list is a reversed
    string and the bytes of a character come last byte first. *)
Fixpoint drop_ws_gen (back : bool) (s : list ascii) : list ascii :=
  match s with
  | [] => []
  | a :: r =>
      if is_ws a then drop_ws_gen back r
      else
        match r with
        | [] => s
        | b :: r2 =>
            if (if back then is_ws2 b a else is_ws2 a b)
            then drop_ws_gen back r2
            else
              match r2 with
              | [] => s
              | c :: r3 =>
                  if (if back then is_ws3 c b a else is_ws3 a b c)
                  then drop_ws_gen back r3
                  else s
              end
        end
  end.

Definition drop_ws (s : list ascii) : list ascii := drop_ws_gen false s.

Definition trim (s : list ascii) : list ascii :=
  rev (drop_ws_gen true (rev (drop_ws s))).

(** Value of a digit in the given radix (letters count from ten). *)
Definition digit_val (radix : Z) (c : ascii) : option Z :=
  let n := Z.of_N (N_of_ascii c) in
  let v := if (48 <=? n) && (n <=? 57) then n - 48
           else if (97 <=? n) && (n <=? 122) then n - 87
           else if (65 <=? n) && (n <=? 90) then n - 55
           else radix in
  if v <? radix then Some v else None.

(** Longest prefix of digits: the value accumulated on [acc], the number of
    digits read, and what follows them. *)
Fixpoint digits (radix : Z) (s : list ascii) (acc : Z) (k : nat)
  : Z * nat * list ascii :=
  match s with
  | c :: r =>
      match digit_val radix c with
      | Some d => digits radix r (acc * radix + d) (S k)
      | None => (acc, k, s)
      end
  | [] => (acc, k, [])
  end.

Definition is_e (c : ascii) : bool :=
  (N_of_ascii c =? 101)%N || (N_of_ascii c =? 69)%N.

(** ExponentPart, or nothing, up to the end of the input. *)
Definition exponent (s : list ascii) : option Z :=
  match s with
  | [] => Some 0
  | c :: r =>
      if is_e c then
        let '(neg, r1) :=
          match r with
          | "-"%char :: r' => (true, r')
          | "+"%char :: r' => (false, r')
          | _ => (false, r)
          end in
        match digits 10 r1 0 0 with
        | (e, S _, []) => Some (if neg then - e else e)
        | _ => None
        end
      else None
  end.

(** [m * 10 ^ e] *)
Definition scale (m e : Z) : Q :=
  if 0 <=? e then inject_Z (m * 10 ^ e)
  else Qred (m # Z.to_pos (10 ^ (- e))).

(** The mathematical value of a StrUnsignedDecimalLiteral without the
    [Infinity] alternative. *)
Definition unsigned_decimal (s : list ascii) : option Q :=
  let '(ip, n1, r) := digits 10 s 0 0 in
  match r with
  | "."%char :: r1 =>
      let '(m, n2, r2) := digits 10 r1 ip 0 in
      match n1, n2 with
      | O, O => None
      | _, _ =>
          match exponent r2 with
          | Some e => Some (scale m (e - Z.of_nat n2))
          | None => None
          end
      end
  | _ =>
      match n1 with
      | O => None
      | S _ =>
          match exponent r with
          | Some e => Some (scale ip e)
          | None => None
          end
      end
  end.

Definition infinity_lit : list ascii := list_ascii_of_string "Infinity".

Definition list_eqb (a b : list ascii) : bool :=
  String.eqb (string_of_list_ascii a) (string_of_list_ascii b).

Definition unsigned_literal (s : list ascii) : num :=
  if list_eqb s infinity_lit then PInf
  else match unsigned_decimal s with Some q => rnd q | None => NaN end.

(** NonDecimalIntegerLiteral: [0x], [0o], [0b] and their capitals. *)
Definition non_decimal (s : list ascii) : option num :=
  match s with
  | "0"%char :: p :: r =>
      let radix :=
        match N_of_ascii p with
        | 120%N | 88%N => Some 16
        | 111%N | 79%N => Some 8
        | 98%N | 66%N => Some 2
        | _ => None
        end in
      match radix with
      | Some b =>
          match digits b r 0 0 with
          | (v, S _, []) => Some (rnd (inject_Z v))
          | _ => Some NaN
          end
      | None => None
      end
  | _ => None
  end.

(** [Number(v)] for a string [v]: the literal's value rounded to binary64. *)
Definition Number (v : string) : num :=
  match trim (list_ascii_of_string v) with
  | [] => Fin 0
  | "-"%char :: r => neg (unsigned_literal r)
  | "+"%char :: r => unsigned_literal r
  | s =>
      match non_decimal s with
      | Some x => x
      | None => unsigned_literal s
      end
  end.

Definition Z_to_string (z : Z) : string :=
  DecimalString.NilZero.string_of_int (Z.to_int z).

Definition pow10 (e : Z) : Q := Qpower 10 e.

Fixpoint log10_up (fuel : nat) (q : Q) (e : Z) : Z :=
  match fuel with
  | O => e
  | S f => if Qle_bool (pow10 (e + 1)) q then log10_up f q (e + 1) else e
  end.

Fixpoint log10_down (fuel : nat) (q : Q) (e : Z) : Z :=
  match fuel with
  | O => e
  | S f => if Qle_bool (pow10 e) q then e else log10_down f q (e - 1)
  end.

(** The integer part of the decimal logarithm of a positive rational. *)
Definition Qlog10 (q : Q) : Z :=
  let est := (Qlog2 q * 30103) / 100000 in
  log10_up 4 q (log10_down 4 q est).

Definition num_eqb (x y : num) : bool :=
  match x, y with
  | Fin a, Fin b => Qeq_bool a b
  | PInf, PInf | NInf, NInf => true
  | _, _ => false
  end.

(** The digits [s], their number [k] and the position [n] of the decimal
    point of a positive [q]: the least [k] for which some [s] with [k] digits
    has [s * 10 ^ (n - k)] read back as [q], and for it the [s] nearest to
    [q], the even one of two. *)
Fixpoint shortest (fuel : nat) (q : Q) (n0 k : Z) : Z * Z * Z :=
  let sc := (q * pow10 (k - n0))%Q in
  let lo := Qfloor sc in
  match fuel with
  | O => (rne sc, k, n0)
  | S f =>
      let hi := if lo + 1 =? 10 ^ k then (10 ^ (k - 1), n0 + 1)
                else (lo + 1, n0) in
      let back (c : Z * Z) :=
        num_eqb (rnd (inject_Z (fst c) * pow10 (snd c - k))) (Fin q) in
      match back (lo, n0), back hi with
      | true, false => (lo, k, n0)
      | false, true => (fst hi, k, snd hi)
      | true, true =>
          match Qcompare (sc - inject_Z lo) (inject_Z (lo + 1) - sc) with
          | Lt => (lo, k, n0)
          | Gt => (fst hi, k, snd hi)
          | Eq => if Z.even lo then (lo, k, n0) else (fst hi, k, snd hi)
          end
      | false, false => shortest f q n0 (k + 1)
      end
  end.

Fixpoint zeros (n : nat) : string :=
  match n with
  | O => EmptyString
  | S m => String "0" (zeros m)
  end.

(** Number::toString for a positive number that is not an integer up to
    [2 ^ 53]. *)
Definition positive_to_string (q : Q) : string :=
  let '(s, k, n) := shortest 17 q (Qlog10 q + 1) 1 in
  let ds := Z_to_string s in
  let kn := Z.to_nat k in
  if (k <=? n) && (n <=? 21) then (ds ++ zeros (Z.to_nat (n - k)))%string
  else if (0 <? n) && (n <=? 21) then
    (substring 0 (Z.to_nat n) ds ++ "."
       ++ substring (Z.to_nat n) (kn - Z.to_nat n) ds)%string
  else if (-6 <? n) && (n <=? 0) then
    ("0." ++ zeros (Z.to_nat (- n)) ++ ds)%string
  else
    let e := n - 1 in
    let sign := if 0 <=? e then "+"%string else "-"%string in
    let mant := if k =? 1 then ds
                else (substring 0 1 ds ++ "." ++ substring 1 (kn - 1) ds)%string in
    (mant ++ "e" ++ sign ++ Z_to_string (Z.abs e))%string.

Definition is_safe_integer (q : Q) : bool :=
  (Qnum q mod Zpos (Qden q) =? 0) && (Z.abs (Qnum q / Zpos (Qden q)) <=? 2 ^ 53).

(** The string a template literal puts in place of a number.  An integer up
    to [2 ^ 53] in magnitude prints all its digits. *)
Definition toString (x : num) : string :=
  match x with
  | NaN => "NaN"
  | PInf => "Infinity"
  | NInf => "-Infinity"
  | Fin q =>
      if is_safe_integer q then Z_to_string (Qnum q / Zpos (Qden q))
      else
        match Qcompare q 0 with
        | Lt => ("-" ++ positive_to_string (- q))%string
        | _ => positive_to_string q
        end
  end.

End Conv.

Import Conv.

(** ** The component state *)

Definition Url := nat.

Record File := { f_name : string; f_type : string }.

(** A decoded [Image] element: its source and the width and height of the
    picture decoded from it. *)
Record Image := { src : Url; intrinsic_width : N; intrinsic_height : N }.

(** [img.naturalWidth] and [img.naturalHeight], [unsigned long] attributes:
    32 bits. *)
Definition naturalWidth (img : Image) : N := (intrinsic_width img mod 2 ^ 32)%N.
Definition naturalHeight (img : Image) : N := (intrinsic_height img mod 2 ^ 32)%N.

Record Blob := { blob_type : string; blob_size : N }.

(** The ten [useState] cells of [ImageResizer]. *)
Record State := {
  file : option File;
  image : option Image;
  previewUrl : option Url;
  width : num;
  height : num;
  percent : num;
  usePercent : bool;
  keepAspect : bool;
  quality : num;
  format : string
}.

Definition initial : State :=
  {| file := None; image := None; previewUrl := None;
     width := of_Z 800; height := of_Z 600; percent := of_Z 100;
     usePercent := false; keepAspect := true;
     quality := rnd (9 # 10); format := "image/jpeg" |}.

(** A queued call of one of the state setters. *)
Inductive Setter : Type :=
| setFile (v : option File)
| setImage (v : option Image)
| setPreviewUrl (v : option Url)
| setWidth (v : num)
| setHeight (v : num)
| setPercent (v : num)
| setUsePercent (v : bool)
| setKeepAspect (v : bool)
| setQuality (v : num)
| setFormat (v : string).

Definition apply_setter (st : State) (u : Setter) : State :=
  match u with
  | setFile v =>
      {| file := v; image := image st; previewUrl := previewUrl st;
         width := width st; height := height st; percent := percent st;
         usePercent := usePercent st; keepAspect := keepAspect st;
         quality := quality st; format := format st |}
  | setImage v =>
      {| file := file st; image := v; previewUrl := previewUrl st;
         width := width st; height := height st; percent := percent st;
         usePercent := usePercent st; keepAspect := keepAspect st;
         quality := quality st; format := format st |}
  | setPreviewUrl v =>
      {| file := file st; image := image st; previewUrl := v;
         width := width st; height := height st; percent := percent st;
         usePercent := usePercent st; keepAspect := keepAspect st;
         quality := quality st; format := format st |}
  | setWidth v =>
      {| file := file st; image := image st; previewUrl := previewUrl st;
         width := v; height := height st; percent := percent st;
         usePercent := usePercent st; keepAspect := keepAspect st;
         quality := quality st; format := format st |}
  | setHeight v =>
      {| file := file st; image := image st; previewUrl := previewUrl st;
         width := width st; height := v; percent := percent st;
         usePercent := usePercent st; keepAspect := keepAspect st;
         quality := quality st; format := format st |}
  | setPercent v =>
      {| file := file st; image := image st; previewUrl := previewUrl st;
         width := width st; height := height st; percent := v;
         usePercent := usePercent st; keepAspect := keepAspect st;
         quality := quality st; format := format st |}
  | setUsePercent v =>
      {| file := file st; image := image st; previewUrl := previewUrl st;
         width := width st; height := height st; percent := percent st;
         usePercent := v; keepAspect := keepAspect st;
         quality := quality st; format := format st |}
  | setKeepAspect v =>
      {| file := file st; image := image st; previewUrl := previewUrl st;
         width := width st; height := height st; percent := percent st;
         usePercent := usePercent st; keepAspect := v;
         quality := quality st; format := format st |}
  | setQuality v =>
      {| file := file st; image := image st; previewUrl := previewUrl st;
         width := width st; height := height st; percent := percent st;
         usePercent := usePercent st; keepAspect := keepAspect st;
         quality := v; format := format st |}
  | setFormat v =>
      {| file := file st; image := image st; previewUrl := previewUrl st;
         width := width st; height := height st; percent := percent st;
         usePercent := usePercent st; keepAspect := keepAspect st;
         quality := quality st; format := v |}
  end.

(** The state of the next render: the queue applied in call order. *)
Definition commit (st : State) (queue : list Setter) : State :=
  fold_left apply_setter queue st.

(** ** The page *)

Inductive DrawOp : Type :=
| clearRect (x y w h : num)
| drawImage (img : Image) (x y w h : num).

(** The canvas element: the values assigned to its [width] and [height], and
    the drawing calls made on its 2D context. *)
Record Canvas := { c_width : num; c_height : num; c_ops : list DrawOp }.

(** What the user can observe: an alert, a tab opened on a URL, an anchor
    with [href] and [download] put on the page, clicked and removed, a
    revoked object URL, and a timer set on such an event. *)
Inductive Event : Type :=
| Alert (msg : string)
| WindowOpen (url : Url) (target : string)
| AnchorClick (href : Url) (download : string)
| RevokeObjectURL (url : Url)
| SetTimeout (ms : Z) (callback : Event).

Record Dom := {
  canvasRef : option Canvas;
  next_url : Url;
  page : list Event
}.

Definition emit (e : Event) (d : Dom) : Dom :=
  {| canvasRef := canvasRef d; next_url := next_url d;
     page := page d ++ [e] |}.

Definition set_canvas (c : Canvas) (d : Dom) : Dom :=
  {| canvasRef := Some c; next_url := next_url d; page := page d |}.

(** [URL.createObjectURL]: a fresh URL. *)
Definition createObjectURL (d : Dom) : Url * Dom :=
  (next_url d,
   {| canvasRef := canvasRef d; next_url := S (next_url d);
      page := page d |}).

(** How a promise settles. *)
Inductive Settled (A : Type) : Type :=
| Fulfilled (v : A)
| Rejected (reason : string).
Arguments Fulfilled {A} v.
Arguments Rejected {A} reason.

(** What [resizeToBlobUrl] resolves with when it has something. *)
Record Result := {
  r_blob : Blob;
  r_url : Url;
  r_width : num;
  r_height : num
}.

(** ** The handlers *)

Section ImageResizer.

(** The platform encoder behind [canvas.toBlob]: the blob handed to the
    callback, or [None] for [null]. *)
Variable toBlob : Canvas -> string -> num -> option Blob.

(** The [file] effect: with a file, an object URL for it becomes the preview
    and the source of a new [Image]; the platform decodes and then calls
    [img_onload]. *)
Definition file_effect (st : State) (d : Dom) : list Setter * Dom :=
  match file st with
  | None => ([], d)
  | Some _ =>
      let (url, d1) := createObjectURL d in
      ([setPreviewUrl (Some url)], d1)
  end.

(** [img.onload], created by the effect of the render [st]. *)
Definition img_onload (st : State) (img : Image) : list Setter :=
  setImage (Some img)
    :: (if negb (usePercent st)
        then [setWidth (of_N (naturalWidth img));
              setHeight (of_N (naturalHeight img))]
        else []).

(** The cleanup of the [file] effect. *)
Definition file_effect_cleanup (url : Url) (d : Dom) : Dom :=
  emit (RevokeObjectURL url) d.

(** [targetW] and [targetH] as [resizeToBlobUrl] has them before it touches
    the canvas. *)
Definition target (st : State) (img : Image) : num * num :=
  let targetW := width st in
  let targetH := height st in
  if usePercent st then
    let factor := div (percent st) (of_Z 100) in
    (Math_round (mul (of_N (naturalWidth img)) factor),
     Math_round (mul (of_N (naturalHeight img)) factor))
  else if keepAspect st then
    let aspect := div (of_N (naturalWidth img)) (of_N (naturalHeight img)) in
    (targetW, Math_round (div targetW aspect))
  else (targetW, targetH).

(** The canvas once it has been given the target size, cleared and drawn on
    through its 2D context; assigning the size resets what was drawn
    before. *)
Definition drawn (i : Image) (targetW targetH : num) : Canvas :=
  {| c_width := targetW; c_height := targetH;
     c_ops := [clearRect (of_Z 0) (of_Z 0) targetW targetH;
               drawImage i (of_Z 0) (of_Z 0) targetW targetH] |}.

Definition resizeToBlobUrl (st : State) (d : Dom)
  : Settled (option Result) * Dom :=
  match image st, canvasRef d with
  | Some i, Some _ =>
      let (targetW, targetH) := target st i in
      let canvas := drawn i targetW targetH in
      let d1 := set_canvas canvas d in
      match toBlob canvas (format st) (quality st) with
      | None => (Fulfilled None, d1)
      | Some blob =>
          let (url, d2) := createObjectURL d1 in
          (Fulfilled (Some {| r_blob := blob; r_url := url;
                              r_width := targetW; r_height := targetH |}),
           d2)
      end
  | _, _ => (Fulfilled None, d)
  end.

Definition handleFile (f : option File) (st : State) (d : Dom)
  : list Setter * Dom :=
  match f with
  | None => ([], d)
  | Some f' =>
      if negb (String.prefix "image/" (f_type f'))
      then ([], emit (Alert "Please upload an image file.") d)
      else ([setFile (Some f')], d)
  end.

Definition handleDrop (files : list File) (st : State) (d : Dom)
  : list Setter * Dom :=
  handleFile (hd_error files) st d.

Definition handleResizeClick (st : State) (d : Dom) : list Setter * Dom :=
  match resizeToBlobUrl st d with
  | (Fulfilled (Some result), d1) =>
      ([], emit (WindowOpen (r_url result) "_blank") d1)
  | (_, d1) => ([], d1)
  end.

Definition ext_of (fmt : string) : string :=
  if String.eqb fmt "image/png" then "png"
  else if String.eqb fmt "image/webp" then "webp"
  else "jpg".

Definition download_name (st : State) (result : Result) : string :=
  ("resized-" ++ toString (r_width result) ++ "x"
     ++ toString (r_height result) ++ "." ++ ext_of (format st))%string.

Definition handleDownload (st : State) (d : Dom) : list Setter * Dom :=
  match resizeToBlobUrl st d with
  | (Fulfilled (Some result), d1) =>
      let d2 := emit (AnchorClick (r_url result) (download_name st result)) d1 in
      ([], emit (SetTimeout 2000 (RevokeObjectURL (r_url result))) d2)
  | (_, d1) => ([], d1)
  end.

Definition handleWidthChange (v : string) (st : State) : list Setter :=
  let n := or_zero (Number v) in
  setWidth n
    :: match keepAspect st, image st with
       | true, Some img =>
           let aspect :=
             div (of_N (naturalWidth img)) (of_N (naturalHeight img)) in
           [setHeight (Math_round (div n aspect))]
       | _, _ => []
       end.

Definition handleHeightChange (v : string) (st : State) : list Setter :=
  let n := or_zero (Number v) in
  setHeight n
    :: match keepAspect st, image st with
       | true, Some img =>
           let aspect :=
             div (of_N (naturalWidth img)) (of_N (naturalHeight img)) in
           [setWidth (Math_round (mul n aspect))]
       | _, _ => []
       end.

(** The [onClick] of the Clear button. *)
Definition handleClear (st : State) : list Setter :=
  [setFile None; setImage None; setPreviewUrl None].

(** An edit of one of the two size fields, and the renders a list of edits
    leads through. *)
Inductive Edit : Type :=
| EditWidth (v : string)
| EditHeight (v : string).

Definition edit (st : State) (e : Edit) : State :=
  match e with
  | EditWidth v => commit st (handleWidthChange v st)
  | EditHeight v => commit st (handleHeightChange v st)
  end.

Definition edits (st : State) (es : list Edit) : State :=
  fold_left edit es st.

(** The size the canvas has. *)
Definition canvas_size (d : Dom) : option (num * num) :=
  match canvasRef d with
  | Some c => Some (c_width c, c_height c)
  | None => None
  end.

(** [resizeToBlobUrl] works at size [wh]: it leaves the canvas with that
    size, and a result it resolves with carries it. *)
Definition pipeline_size (st : State) (d : Dom) (wh : num * num) : Prop :=
  canvas_size (snd (resizeToBlobUrl st d)) = Some wh
  /\ forall r, fst (resizeToBlobUrl st d) = Fulfilled (Some r) ->
               (r_width r, r_height r) = wh.

(** The size of the result [resizeToBlobUrl] resolves with, if it has one. *)
Definition output_dims (st : State) (d : Dom) : option (num * num) :=
  match fst (resizeToBlobUrl st d) with
  | Fulfilled (Some r) => Some (r_width r, r_height r)
  | _ => None
  end.

End ImageResizer.

(** ** Sample data *)

Definition picture (w h : N) : Image :=
  {| src := 0%nat; intrinsic_width := w; intrinsic_height := h |}.

(** The state once [i] has loaded into a fresh component. *)
Definition loaded (i : Image) : State := commit initial (img_onload initial i).

Definition blank_canvas : Canvas :=
  {| c_width := of_Z 300; c_height := of_Z 150; c_ops := [] |}.

Definition dom0 : Dom :=
  {| canvasRef := Some blank_canvas; next_url := 1%nat; page := [] |}.

(** An encoder that always has data, and one that never has. *)
Definition encoder_ok (c : Canvas) (fmt : string) (q : num) : option Blob :=
  Some {| blob_type := fmt; blob_size := 1 |}.

Definition encoder_null (c : Canvas) (fmt : string) (q : num) : option Blob :=
  None.

(** An 800 x 600 image at 50 percent, and a 10 x 10 image at 1 percent. *)
Definition half_size : State :=
  commit (loaded (picture 800 600)) [setUsePercent true; setPercent (of_Z 50)].

Definition one_percent : State :=
  commit (loaded (picture 10 10)) [setUsePercent true; setPercent (of_Z 1)].

(** A 500 x 750 image at 29 percent. *)
Definition tie_29 : State :=
  commit (loaded (picture 500 750)) [setUsePercent true; setPercent (of_Z 29)].

(** A 100 x 1000 image whose height field was set to 14, and a 700 x 1000
    image whose height field was set to 45. *)
Definition tall : Image := picture 100 1000.
Definition height_14 : State := edits (loaded tall) [EditHeight "14"].
Definition height_45 : State :=
  edits (loaded (picture 700 1000)) [EditHeight "45"].

(** Images without area: one with no natural size at all, just loaded, and
    one of natural width 0 whose width field was then set to 800. *)
Definition sizeless : State := loaded (picture 0 0).
Definition widthless : State := edits (loaded (picture 0 600)) [EditWidth "800"].

(** An 800 x 600 image, width field set to 640, format WebP. *)
Definition webp_640 : State :=
  commit (edits (loaded (picture 800 600)) [EditWidth "640"])
         [setFormat "image/webp"].

Definition text_file : File :=
  {| f_name := "notes.txt"; f_type := "text/plain" |}.

(** ** Notions for the properties of edits and input *)

Definition is_NaN (x : num) : bool :=
  match x with NaN => true | _ => false end.

(** A string of white space only. *)
Definition blank (v : string) : bool :=
  forallb is_ws (list_ascii_of_string v).

(** The value of the last width edit of a list, or [w0] without one; the
    same for the height. *)
Fixpoint last_width (es : list Edit) (w0 : num) : num :=
  match es with
  | [] => w0
  | EditWidth v :: r => last_width r (or_zero (Number v))
  | EditHeight _ :: r => last_width r w0
  end.

Fixpoint last_height (es : list Edit) (h0 : num) : num :=
  match es with
  | [] => h0
  | EditWidth _ :: r => last_height r h0
  | EditHeight v :: r => last_height r (or_zero (Number v))
  end.

(** An 800 x 600 image just loaded, and the same with keep-aspect off. *)
Definition landscape : State := loaded (picture 800 600).
Definition unlocked : State := commit landscape [setKeepAspect false].

Definition photo_file : File :=
  {| f_name := "photo.png"; f_type := "image/png" |}.

(** The 800 x 600 image in percent mode at the default 100 percent. *)
Definition full_percent : State := commit landscape [setUsePercent true].

(** ** The inline handlers and the quality label

    The [onChange] of the percent slider and of the quality slider, which
    store [Number(e.target.value)], and the text under the quality slider,
    [Math.round(quality * 100)] followed by a percent sign. *)

Definition handlePercentChange (v : string) : list Setter :=
  [setPercent (Number v)].

Definition handleQualityChange (v : string) : list Setter :=
  [setQuality (Number v)].

Definition quality_label (st : State) : string :=
  (toString (Math_round (mul (quality st) (of_Z 100))) ++ "%")%string.
(** ** Rounding to binary64: the facts used below *)

Lemma pow2_pos (e : Z) : (0 < pow2 e)%Q.
Proof. apply Qpower_0_lt. reflexivity. Qed.

Lemma pow2_add (a b : Z) : (pow2 (a + b) == pow2 a * pow2 b)%Q.
Proof. apply Qpower_plus. discriminate. Qed.

Lemma pow2_succ (e : Z) : (pow2 (e + 1) == 2 * pow2 e)%Q.
Proof. rewrite pow2_add. change (pow2 1) with 2%Q. ring. Qed.

Lemma pow2_pred (e : Z) : (pow2 e == 2 * pow2 (e - 1))%Q.
Proof. rewrite <- pow2_succ. replace (e - 1 + 1) with e by lia. reflexivity. Qed.

Lemma pow2_le (a b : Z) : a <= b -> (pow2 a <= pow2 b)%Q.
Proof. intros H. apply Qpower_le_compat_l; [exact H | discriminate]. Qed.

Lemma pow2_lt (a b : Z) : a < b -> (pow2 a < pow2 b)%Q.
Proof. intros H. apply Qpower_lt_compat_l; [exact H | reflexivity]. Qed.

Lemma pow2_lt_inv (a b : Z) : (pow2 a < pow2 b)%Q -> a < b.
Proof. intros H. apply (Qpower_lt_compat_l_inv 2); [exact H | reflexivity]. Qed.

Lemma pow2_Z (e : Z) : 0 <= e -> (pow2 e == inject_Z (2 ^ e))%Q.
Proof. intros H. symmetry. apply (Zpower_Qpower 2 e H). Qed.

Lemma pow2_opp (e : Z) : (pow2 (- e) == / pow2 e)%Q.
Proof. apply Qpower_opp. Qed.

Lemma div_pow2 (q : Q) (e : Z) : (q / pow2 e == q * pow2 (- e))%Q.
Proof. unfold Qdiv. rewrite pow2_opp. reflexivity. Qed.

(* Qlog2 *)
Lemma frac_lt (a b c d : Q) :
  (0 < a)%Q -> (0 < c)%Q -> (a < b)%Q -> (c <= d)%Q -> (a / d < b / c)%Q.
Proof.
  intros Ha Hc Hab Hcd.
  assert (Hd : (0 < d)%Q) by lra. assert (Hb : (0 < b)%Q) by lra.
  apply Qlt_shift_div_r; [exact Hd|].
  eapply Qlt_le_trans; [exact Hab|].
  setoid_replace (b / c * d)%Q with ((b * d) / c)%Q by (field; lra).
  apply Qle_shift_div_l; [exact Hc|].
  apply Qmult_le_l; assumption.
Qed.

Lemma frac_le (a b c d : Q) :
  (0 < a)%Q -> (0 < c)%Q -> (a <= b)%Q -> (c <= d)%Q -> (a / d <= b / c)%Q.
Proof.
  intros Ha Hc Hab Hcd.
  assert (Hd : (0 < d)%Q) by lra. assert (Hb : (0 < b)%Q) by lra.
  apply Qle_shift_div_r; [exact Hd|].
  eapply Qle_trans; [exact Hab|].
  setoid_replace (b / c * d)%Q with ((b * d) / c)%Q by (field; lra).
  apply Qle_shift_div_l; [exact Hc|].
  apply Qmult_le_l; assumption.
Qed.

Lemma pow2_sub (a b : Z) : (pow2 (a - b) == pow2 a / pow2 b)%Q.
Proof.
  unfold Z.sub. rewrite pow2_add, pow2_opp. reflexivity.
Qed.

Lemma Qlog2_spec (q : Q) :
  (0 < q)%Q -> (pow2 (Qlog2 q) <= q)%Q /\ (q < pow2 (Qlog2 q + 1))%Q.
Proof.
  intros Hq. destruct q as [n d]. unfold Qlog2. cbn [Qnum Qden].
  assert (Hn : 0 < n) by (unfold Qlt in Hq; cbn in Hq; lia).
  set (ln := Z.log2 n). set (ld := Z.log2 (Zpos d)).
  destruct (Z.log2_spec n Hn) as [Ln Un]. fold ln in Ln, Un.
  destruct (Z.log2_spec (Zpos d) eq_refl) as [Ld Ud]. fold ld in Ld, Ud.
  assert (N0 : 0 <= ln) by apply Z.log2_nonneg.
  assert (D0 : 0 <= ld) by apply Z.log2_nonneg.
  rewrite Zle_Qle, <- pow2_Z in Ln, Ld by lia.
  rewrite Zlt_Qlt in Un, Ud.
  rewrite <- Z.add_1_r, <- pow2_Z in Un, Ud by lia.
  assert (E : (n # d == inject_Z n / inject_Z (Zpos d))%Q) by apply Qmake_Qdiv.
  assert (Pn : (0 < inject_Z n)%Q) by (rewrite <- (Zlt_Qlt 0); exact Hn).
  assert (Up : (n # d < pow2 (ln - ld + 1))%Q).
  { rewrite E. replace (ln - ld + 1) with ((ln + 1) - ld) by lia.
    rewrite pow2_sub. apply frac_lt; try assumption. apply pow2_pos. }
  assert (Lo : (pow2 (ln - ld - 1) <= n # d)%Q).
  { rewrite E. replace (ln - ld - 1) with (ln - (ld + 1)) by lia.
    rewrite pow2_sub. apply frac_le; try assumption.
    - apply pow2_pos.
    - reflexivity.
    - apply Qlt_le_weak, Ud. }
  destruct (Qle_bool (pow2 (ln - ld)) (n # d)) eqn:B.
  - apply Qle_bool_iff in B. split; assumption.
  - assert (B' : (n # d < pow2 (ln - ld))%Q).
    { apply Qnot_le_lt. intros C. apply Qle_bool_iff in C. congruence. }
    replace (ln - ld - 1 + 1) with (ln - ld) by lia. split; assumption.
Qed.

Lemma Qlog2_unique (q : Q) (k : Z) :
  (pow2 k <= q)%Q -> (q < pow2 (k + 1))%Q -> Qlog2 q = k.
Proof.
  intros L U.
  assert (Hq : (0 < q)%Q) by (eapply Qlt_le_trans; [apply pow2_pos | exact L]).
  destruct (Qlog2_spec q Hq) as [L' U'].
  assert (A : Qlog2 q < k + 1).
  { apply pow2_lt_inv. eapply Qle_lt_trans; eassumption. }
  assert (B : k < Qlog2 q + 1).
  { apply pow2_lt_inv. eapply Qle_lt_trans; eassumption. }
  lia.
Qed.

Lemma Qlog2_comp (q q' : Q) : (0 < q)%Q -> (q == q')%Q -> Qlog2 q = Qlog2 q'.
Proof.
  intros Hq E. symmetry. destruct (Qlog2_spec q Hq) as [L U].
  apply Qlog2_unique; rewrite <- E; assumption.
Qed.

Lemma Qlog2_mono (q1 q2 : Q) :
  (0 < q1)%Q -> (q1 <= q2)%Q -> Qlog2 q1 <= Qlog2 q2.
Proof.
  intros H1 H12.
  assert (H2 : (0 < q2)%Q) by (eapply Qlt_le_trans; eassumption).
  destruct (Qlog2_spec q1 H1) as [L1 _]. destruct (Qlog2_spec q2 H2) as [_ U2].
  assert (Qlog2 q1 < Qlog2 q2 + 1); [|lia].
  apply pow2_lt_inv. eapply Qle_lt_trans; [exact L1|].
  eapply Qle_lt_trans; eassumption.
Qed.

(* rne *)
Lemma rne_comp (x y : Q) : (x == y)%Q -> rne x = rne y.
Proof.
  intros E. unfold rne. rewrite (Qfloor_comp x y E).
  assert (C : ((x - inject_Z (Qfloor y)) ?= (1 # 2))%Q
              = ((y - inject_Z (Qfloor y)) ?= (1 # 2))%Q).
  { apply Qcompare_comp; [rewrite E|]; reflexivity. }
  rewrite C. reflexivity.
Qed.

Lemma rne_cases (x : Q) :
  (rne x = Qfloor x /\ (x - inject_Z (Qfloor x) <= 1 # 2)%Q
   /\ ((x - inject_Z (Qfloor x) == 1 # 2)%Q -> Z.even (Qfloor x) = true))
  \/ (rne x = Qfloor x + 1 /\ (1 # 2 <= x - inject_Z (Qfloor x))%Q
      /\ ((x - inject_Z (Qfloor x) == 1 # 2)%Q -> Z.even (Qfloor x) = false)).
Proof.
  unfold rne.
  destruct (Qcompare_spec (x - inject_Z (Qfloor x)) (1 # 2)) as [E | L | G].
  - destruct (Z.even (Qfloor x)) eqn:Ev.
    + left. split; [reflexivity|]. split; [rewrite E; apply Qle_refl|].
      reflexivity.
    + right. split; [reflexivity|]. split; [rewrite E; apply Qle_refl|].
      reflexivity.
  - left. split; [reflexivity|]. split; [apply Qlt_le_weak, L|].
    intros E. rewrite E in L. discriminate.
  - right. split; [reflexivity|]. split; [apply Qlt_le_weak, G|].
    intros E. rewrite E in G. discriminate.
Qed.

Lemma Qfloor_bounds (x : Q) :
  (inject_Z (Qfloor x) <= x)%Q /\ (x < inject_Z (Qfloor x) + 1)%Q.
Proof.
  split; [apply Qfloor_le|].
  pose proof (Qlt_floor x) as H. rewrite inject_Z_plus in H. exact H.
Qed.

Lemma rne_bounds (x : Q) :
  (x - (1 # 2) <= inject_Z (rne x))%Q /\ (inject_Z (rne x) <= x + (1 # 2))%Q.
Proof.
  destruct (Qfloor_bounds x) as [L U].
  destruct (rne_cases x) as [(E & H & _) | (E & H & _)]; rewrite E.
  - split; lra.
  - rewrite inject_Z_plus. change (inject_Z 1) with 1%Q. split; lra.
Qed.

Lemma rne_Z (z : Z) : rne (inject_Z z) = z.
Proof.
  destruct (rne_cases (inject_Z z)) as [(E & _) | (E & H & _)];
    rewrite E, ?Qfloor_Z; [reflexivity|].
  rewrite Qfloor_Z in H. exfalso. lra.
Qed.

Lemma rne_mono (x y : Q) : (x <= y)%Q -> rne x <= rne y.
Proof.
  intros H.
  pose proof (Qfloor_resp_le x y H) as F.
  destruct (Qfloor_bounds x) as [Lx Ux]. destruct (Qfloor_bounds y) as [Ly Uy].
  destruct (rne_cases x) as [(Ex & Hx & Tx) | (Ex & Hx & Tx)];
    destruct (rne_cases y) as [(Ey & Hy & Ty) | (Ey & Hy & Ty)];
    rewrite Ex, Ey; try lia.
  destruct (Z.eq_dec (Qfloor x) (Qfloor y)) as [Q | Q]; [|lia].
  exfalso. rewrite Q in *.
  assert (Ax : (x - inject_Z (Qfloor y) == 1 # 2)%Q) by lra.
  assert (Ay : (y - inject_Z (Qfloor y) == 1 # 2)%Q) by lra.
  rewrite (Tx Ax) in Ty. specialize (Ty Ay). discriminate.
Qed.

Lemma rne_ge (x : Q) (a : Z) : (inject_Z a <= x)%Q -> a <= rne x.
Proof. intros H. rewrite <- (rne_Z a). apply rne_mono, H. Qed.

Lemma rne_le (x : Q) (b : Z) : (x <= inject_Z b)%Q -> rne x <= b.
Proof. intros H. rewrite <- (rne_Z b). apply rne_mono, H. Qed.

(* round53 *)


Lemma round53_eq (q : Q) :
  round53 q = (inject_Z (rne (q / pow2 (expo q))) * pow2 (expo q))%Q.
Proof. reflexivity. Qed.

Lemma round53_comp (q q' : Q) :
  (0 < q)%Q -> (q == q')%Q -> (round53 q == round53 q')%Q.
Proof.
  intros Hq E. rewrite !round53_eq. unfold expo.
  rewrite (Qlog2_comp q q' Hq E).
  set (e := Z.max _ _).
  rewrite (rne_comp (q / pow2 e) (q' / pow2 e)); [reflexivity|].
  rewrite E. reflexivity.
Qed.

Lemma round53_abs (q : Q) :
  (q - pow2 (expo q - 1) <= round53 q)%Q
  /\ (round53 q <= q + pow2 (expo q - 1))%Q.
Proof.
  rewrite round53_eq. set (e := expo q).
  pose proof (pow2_pos e) as Pe.
  destruct (rne_bounds (q / pow2 e)) as [L U].
  set (m := inject_Z (rne (q / pow2 e))) in *.
  assert (E : (q == q / pow2 e * pow2 e)%Q) by (field; lra).
  assert (H : (pow2 (e - 1) == (1 # 2) * pow2 e)%Q).
  { rewrite (pow2_pred e). field. }
  rewrite H. split.
  - setoid_replace (q - (1 # 2) * pow2 e)%Q
      with ((q / pow2 e - (1 # 2)) * pow2 e)%Q by (field; lra).
    apply Qmult_le_compat_r; lra.
  - setoid_replace (q + (1 # 2) * pow2 e)%Q
      with ((q / pow2 e + (1 # 2)) * pow2 e)%Q by (field; lra).
    apply Qmult_le_compat_r; lra.
Qed.

Lemma expo_normal (q : Q) :
  (pow2 (-1022) <= q)%Q -> expo q = Qlog2 q - 52.
Proof.
  intros H. unfold expo.
  assert (Hq : (0 < q)%Q) by (eapply Qlt_le_trans; [apply pow2_pos | exact H]).
  destruct (Qlog2_spec q Hq) as [_ U].
  assert (-1022 < Qlog2 q + 1).
  { apply pow2_lt_inv. eapply Qle_lt_trans; eassumption. }
  lia.
Qed.

(** Relative error of one rounding in the normal range. *)
Lemma round53_rel (q : Q) :
  (pow2 (-1022) <= q)%Q ->
  (q - q * pow2 (-53) <= round53 q)%Q /\ (round53 q <= q + q * pow2 (-53))%Q.
Proof.
  intros H.
  assert (Hq : (0 < q)%Q) by (eapply Qlt_le_trans; [apply pow2_pos | exact H]).
  destruct (round53_abs q) as [L U]. rewrite (expo_normal q H) in L, U.
  destruct (Qlog2_spec q Hq) as [Lq _].
  assert (B : (pow2 (Qlog2 q - 52 - 1) <= q * pow2 (-53))%Q).
  { replace (Qlog2 q - 52 - 1) with (Qlog2 q + -53) by lia.
    rewrite pow2_add. apply Qmult_le_compat_r; [exact Lq|].
    apply Qlt_le_weak, pow2_pos. }
  split; lra.
Qed.

Lemma round53_nonneg (q : Q) : (0 < q)%Q -> (0 <= round53 q)%Q.
Proof.
  intros Hq. rewrite round53_eq.
  apply Qmult_le_0_compat; [|apply Qlt_le_weak, pow2_pos].
  rewrite <- (Zle_Qle 0). apply rne_ge.
  apply Qle_shift_div_l; [apply pow2_pos|].
  change (inject_Z 0) with 0%Q. rewrite Qmult_0_l. lra.
Qed.

(** The result stays within the binade of the argument. *)
Lemma round53_upper (q : Q) :
  (0 < q)%Q -> (round53 q <= pow2 (Qlog2 q + 1))%Q.
Proof.
  intros Hq. rewrite round53_eq. set (e := expo q).
  destruct (Qlog2_spec q Hq) as [_ U].
  pose proof (pow2_pos e) as Pe.
  destruct (Z_lt_le_dec (Qlog2 q + 1) e) as [C | C].
  - (* far below the smallest step: rounds to zero *)
    assert (X : (q / pow2 e < 1 # 2)%Q).
    { apply Qlt_shift_div_r; [exact Pe|].
      eapply Qlt_le_trans; [exact U|].
      rewrite (pow2_pred e). setoid_replace ((1 # 2) * (2 * pow2 (e - 1)))%Q
        with (pow2 (e - 1)) by ring.
      apply pow2_le. lia. }
    assert (M : rne (q / pow2 e) <= 0).
    { destruct (rne_bounds (q / pow2 e)) as [_ B].
      apply Z.lt_succ_r. rewrite Zlt_Qlt. change (inject_Z (Z.succ 0)) with 1%Q.
      lra. }
    rewrite Zle_Qle in M. change (inject_Z 0) with 0%Q in M.
    apply Qle_trans with 0%Q; [|apply Qlt_le_weak, pow2_pos].
    setoid_replace 0%Q with (0 * pow2 e)%Q by ring.
    apply Qmult_le_compat_r; [exact M | lra].
  - assert (X : (q / pow2 e <= inject_Z (2 ^ (Qlog2 q + 1 - e)))%Q).
    { rewrite <- pow2_Z by lia. rewrite pow2_sub.
      apply Qlt_le_weak. apply Qlt_shift_div_r; [exact Pe|].
      setoid_replace (pow2 (Qlog2 q + 1) / pow2 e * pow2 e)%Q
        with (pow2 (Qlog2 q + 1)) by (field; lra).
      exact U. }
    apply rne_le in X. rewrite Zle_Qle in X.
    rewrite <- pow2_Z in X by lia.
    setoid_replace (pow2 (Qlog2 q + 1))
      with (pow2 (Qlog2 q + 1 - e) * pow2 e)%Q
      by (rewrite <- pow2_add;
          replace (Qlog2 q + 1 - e + e) with (Qlog2 q + 1) by lia;
          reflexivity).
    apply Qmult_le_compat_r; [exact X | lra].
Qed.

Lemma round53_lower (q : Q) :
  (0 < q)%Q -> expo q = Qlog2 q - 52 -> (pow2 (Qlog2 q) <= round53 q)%Q.
Proof.
  intros Hq He. rewrite round53_eq, He. set (e := Qlog2 q - 52).
  destruct (Qlog2_spec q Hq) as [L _].
  pose proof (pow2_pos e) as Pe.
  assert (X : (inject_Z (2 ^ 52) <= q / pow2 e)%Q).
  { rewrite <- pow2_Z by lia.
    apply Qle_shift_div_l; [exact Pe|]. rewrite <- pow2_add.
    unfold e. replace (52 + (Qlog2 q - 52)) with (Qlog2 q) by lia. exact L. }
  apply rne_ge in X. rewrite Zle_Qle in X. rewrite <- pow2_Z in X by lia.
  setoid_replace (pow2 (Qlog2 q)) with (pow2 52 * pow2 e)%Q
    by (rewrite <- pow2_add; unfold e;
        replace (52 + (Qlog2 q - 52)) with (Qlog2 q) by lia; reflexivity).
  apply Qmult_le_compat_r; [exact X | lra].
Qed.

Lemma round53_mono (q1 q2 : Q) :
  (0 < q1)%Q -> (q1 <= q2)%Q -> (round53 q1 <= round53 q2)%Q.
Proof.
  intros H1 H12.
  assert (H2 : (0 < q2)%Q) by lra.
  pose proof (Qlog2_mono q1 q2 H1 H12) as HL.
  destruct (Z.eq_dec (expo q1) (expo q2)) as [E | E].
  - rewrite !round53_eq, E. set (e := expo q2).
    apply Qmult_le_compat_r; [|apply Qlt_le_weak, pow2_pos].
    rewrite <- Zle_Qle. apply rne_mono.
    apply Qmult_le_compat_r; [exact H12|].
    apply Qinv_le_0_compat, Qlt_le_weak, pow2_pos.
  - assert (N : expo q2 = Qlog2 q2 - 52 /\ Qlog2 q1 < Qlog2 q2)
      by (unfold expo in *; lia).
    destruct N as [N HL'].
    eapply Qle_trans; [apply round53_upper, H1|].
    eapply Qle_trans; [|apply round53_lower; assumption].
    apply pow2_le. lia.
Qed.

(** Integers up to 2^53 are kept. *)
Lemma Qlog2_Z (z : Z) : 0 < z -> Qlog2 (inject_Z z) = Z.log2 z.
Proof.
  intros H. destruct (Z.log2_spec z H) as [L U].
  pose proof (Z.log2_nonneg z) as N.
  apply Qlog2_unique.
  - rewrite pow2_Z by lia. rewrite <- Zle_Qle. exact L.
  - rewrite pow2_Z by lia. rewrite <- Zlt_Qlt. rewrite Z.add_1_r. exact U.
Qed.

Lemma round53_Z (z : Z) :
  0 < z <= 2 ^ 53 -> (round53 (inject_Z z) == inject_Z z)%Q.
Proof.
  intros [H0 H1].
  destruct (Z.eq_dec z (2 ^ 53)) as [-> | N]; [vm_compute; reflexivity|].
  assert (L : Z.log2 z < 53) by (apply Z.log2_lt_pow2; lia).
  pose proof (Z.log2_nonneg z) as L0.
  rewrite round53_eq. unfold expo. rewrite (Qlog2_Z z H0).
  replace (Z.max (Z.log2 z - 52) (-1074)) with (Z.log2 z - 52) by lia.
  set (e := Z.log2 z - 52).
  assert (X : (inject_Z z / pow2 e == inject_Z (z * 2 ^ (- e)))%Q).
  { rewrite div_pow2, pow2_Z by lia. rewrite inject_Z_mult. reflexivity. }
  rewrite (rne_comp _ _ X), rne_Z, inject_Z_mult, <- pow2_Z by lia.
  rewrite <- Qmult_assoc, <- pow2_add.
  replace (- e + e) with 0 by lia. change (pow2 0) with 1%Q. ring.
Qed.

(* rnd *)




Lemma Qred_inject_Z (z : Z) : Qred (inject_Z z) = inject_Z z.
Proof.
  unfold Qred, inject_Z.
  pose proof (Z.ggcd_gcd z 1) as G.
  pose proof (Z.ggcd_correct_divisors z 1) as D.
  destruct (Z.ggcd z 1) as [g [aa bb]]. cbn [fst] in G.
  rewrite Z.gcd_1_r in G. subst g. destruct D as [D1 D2].
  rewrite Z.mul_1_l in D1, D2. subst aa bb. reflexivity.
Qed.

Lemma rnd_pos (q : Q) :
  (0 < q)%Q ->
  rnd q = if Qle_bool (pow2 1024) (round53 q) then PInf
          else Fin (Qred (round53 q)).
Proof.
  intros H. unfold rnd.
  destruct (Qcompare_spec q 0) as [E | L | G]; try lra. reflexivity.
Qed.

Lemma rnd_neg (q : Q) :
  (q < 0)%Q ->
  rnd q = if Qle_bool (pow2 1024) (round53 (- q)) then NInf
          else Fin (Qred (- round53 (- q))).
Proof.
  intros H. unfold rnd.
  destruct (Qcompare_spec q 0) as [E | L | G]; try lra. reflexivity.
Qed.

Lemma rnd_zero (q : Q) : (q == 0)%Q -> rnd q = Fin 0.
Proof.
  intros H. unfold rnd.
  destruct (Qcompare_spec q 0) as [E | L | G]; try lra. reflexivity.
Qed.

Lemma Qle_bool_comp (a b b' : Q) :
  (b == b')%Q -> Qle_bool a b = Qle_bool a b'.
Proof.
  intros E. destruct (Qle_bool a b) eqn:B, (Qle_bool a b') eqn:B';
    try reflexivity.
  - apply Qle_bool_iff in B. rewrite E in B. apply Qle_bool_iff in B.
    congruence.
  - apply Qle_bool_iff in B'. rewrite <- E in B'. apply Qle_bool_iff in B'.
    congruence.
Qed.

Lemma rnd_comp (q q' : Q) : (q == q')%Q -> rnd q = rnd q'.
Proof.
  intros E. destruct (Qcompare_spec q 0) as [Z | L | G].
  - rewrite (rnd_zero q Z), (rnd_zero q'); [reflexivity | lra].
  - rewrite (rnd_neg q L), (rnd_neg q') by lra.
    assert (R : (round53 (- q) == round53 (- q'))%Q)
      by (apply round53_comp; lra).
    rewrite (Qle_bool_comp _ _ _ R).
    rewrite (Qred_complete (- round53 (- q)) (- round53 (- q')));
      [reflexivity | rewrite R; reflexivity].
  - rewrite (rnd_pos q G), (rnd_pos q') by lra.
    assert (R : (round53 q == round53 q')%Q) by (apply round53_comp; lra).
    rewrite (Qle_bool_comp _ _ _ R), (Qred_complete _ _ R). reflexivity.
Qed.

Lemma rnd_opp (q : Q) : rnd (- q) = neg (rnd q).
Proof.
  destruct (Qcompare_spec q 0) as [Z | L | G].
  - rewrite (rnd_zero q Z), (rnd_zero (- q)); [reflexivity | lra].
  - rewrite (rnd_neg q L), (rnd_pos (- q)) by lra.
    destruct (Qle_bool _ _); [reflexivity|]. cbn [neg].
    rewrite <- Qred_opp.
    rewrite (Qred_complete (- - round53 (- q)) (round53 (- q)));
      [reflexivity | ring].
  - rewrite (rnd_pos q G), (rnd_neg (- q)) by lra.
    rewrite (Qle_bool_comp _ (round53 (- - q)) (round53 q))
      by (apply round53_comp; lra).
    destruct (Qle_bool _ _); [reflexivity|]. cbn [neg].
    rewrite <- Qred_opp. apply f_equal, Qred_complete.
    rewrite (round53_comp (- - q) q); [reflexivity | lra | ring].
Qed.

Lemma rnd_pos_le (q1 q2 : Q) :
  (0 < q1)%Q -> (q1 <= q2)%Q -> num_le (rnd q1) (rnd q2).
Proof.
  intros H1 H12. rewrite (rnd_pos q1 H1), (rnd_pos q2) by lra.
  pose proof (round53_mono q1 q2 H1 H12) as M.
  destruct (Qle_bool (pow2 1024) (round53 q2)) eqn:B2;
    destruct (Qle_bool (pow2 1024) (round53 q1)) eqn:B1; unfold num_le; trivial.
  - apply Qle_bool_iff in B1.
    assert (C : Qle_bool (pow2 1024) (round53 q2) = true)
      by (apply Qle_bool_iff; lra).
    congruence.
  - rewrite !Qred_correct. exact M.
Qed.

Lemma num_le_neg (x y : num) : num_le x y -> num_le (neg y) (neg x).
Proof.
  destruct x, y; unfold num_le, neg; trivial. intros H. lra.
Qed.

Lemma rnd_sign_pos (q : Q) : (0 < q)%Q -> num_le (Fin 0) (rnd q).
Proof.
  intros H. rewrite (rnd_pos q H). destruct (Qle_bool _ _); unfold num_le; trivial.
  rewrite Qred_correct. apply round53_nonneg, H.
Qed.

Lemma num_le_trans (x y z : num) : num_le x y -> num_le y z -> num_le x z.
Proof.
  destruct x, y, z; unfold num_le; trivial; try contradiction. intros; lra.
Qed.

Lemma rnd_mono (q1 q2 : Q) : (q1 <= q2)%Q -> num_le (rnd q1) (rnd q2).
Proof.
  intros H.
  destruct (Qcompare_spec q1 0) as [Z1 | L1 | G1].
  - rewrite (rnd_zero q1 Z1).
    destruct (Qcompare_spec q2 0) as [Z2 | L2 | G2]; try lra.
    + rewrite (rnd_zero q2 Z2). unfold num_le. lra.
    + apply rnd_sign_pos, G2.
  - destruct (Qcompare_spec q2 0) as [Z2 | L2 | G2].
    + rewrite (rnd_zero q2 Z2).
      rewrite (rnd_comp q1 (- - q1)) by ring. rewrite (rnd_opp (- q1)).
      change (Fin 0) with (neg (Fin 0)). apply num_le_neg, rnd_sign_pos. lra.
    + rewrite (rnd_comp q1 (- - q1)), (rnd_comp q2 (- - q2)) by ring.
      rewrite (rnd_opp (- q1)), (rnd_opp (- q2)).
      apply num_le_neg, rnd_pos_le; lra.
    + apply num_le_trans with (Fin 0).
      * rewrite (rnd_comp q1 (- - q1)) by ring. rewrite (rnd_opp (- q1)).
        change (Fin 0) with (neg (Fin 0)). apply num_le_neg, rnd_sign_pos. lra.
      * apply rnd_sign_pos, G2.
  - apply rnd_pos_le; assumption.
Qed.

Lemma rnd_Z (z : Z) :
  Z.abs z <= 2 ^ 53 -> rnd (inject_Z z) = Fin (inject_Z z).
Proof.
  intros H. destruct (Z.lt_trichotomy z 0) as [N | [-> | P]].
  - rewrite (rnd_comp (inject_Z z) (- inject_Z (- z)))
      by (rewrite inject_Z_opp; ring).
    rewrite rnd_opp.
    assert (P : (0 < inject_Z (- z))%Q) by (rewrite <- (Zlt_Qlt 0); lia).
    rewrite (rnd_pos _ P).
    assert (R : (round53 (inject_Z (- z)) == inject_Z (- z))%Q)
      by (apply round53_Z; lia).
    rewrite (Qle_bool_comp _ _ _ R), (Qred_complete _ _ R), Qred_inject_Z.
    assert (B : Qle_bool (pow2 1024) (inject_Z (- z)) = false).
    { destruct (Qle_bool _ _) eqn:B; [|reflexivity].
      apply Qle_bool_iff in B. rewrite pow2_Z in B by lia.
      rewrite <- Zle_Qle in B.
      assert (2 ^ 53 < 2 ^ 1024) by (apply Z.pow_lt_mono_r; lia). lia. }
    rewrite B. cbn [neg]. f_equal. unfold inject_Z, Qopp. cbn.
    rewrite Z.opp_involutive. reflexivity.
  - reflexivity.
  - assert (P' : (0 < inject_Z z)%Q) by (rewrite <- (Zlt_Qlt 0); lia).
    rewrite (rnd_pos _ P').
    assert (R : (round53 (inject_Z z) == inject_Z z)%Q)
      by (apply round53_Z; lia).
    rewrite (Qle_bool_comp _ _ _ R), (Qred_complete _ _ R), Qred_inject_Z.
    assert (B : Qle_bool (pow2 1024) (inject_Z z) = false).
    { destruct (Qle_bool _ _) eqn:B; [|reflexivity].
      apply Qle_bool_iff in B. rewrite pow2_Z in B by lia.
      rewrite <- Zle_Qle in B.
      assert (2 ^ 53 < 2 ^ 1024) by (apply Z.pow_lt_mono_r; lia). lia. }
    rewrite B. reflexivity.
Qed.

(** One rounding of a number in the normal range. *)
Lemma rnd_rel (q : Q) :
  (pow2 (-1022) <= q)%Q -> (q <= pow2 1023)%Q ->
  exists r, rnd q = Fin r
            /\ (q - q * pow2 (-53) <= r)%Q /\ (r <= q + q * pow2 (-53))%Q.
Proof.
  intros L U.
  assert (Hq : (0 < q)%Q) by (eapply Qlt_le_trans; [apply pow2_pos | exact L]).
  destruct (round53_rel q L) as [A B].
  rewrite (rnd_pos q Hq).
  assert (O : Qle_bool (pow2 1024) (round53 q) = false).
  { destruct (Qle_bool _ _) eqn:E; [|reflexivity].
    apply Qle_bool_iff in E. exfalso.
    assert (S : (q * pow2 (-53) < q)%Q).
    { rewrite <- (Qmult_1_r q) at 2. apply Qmult_lt_l; [exact Hq|].
      change 1%Q with (pow2 0). apply pow2_lt. lia. }
    assert (T : (pow2 1024 == 2 * pow2 1023)%Q)
      by (rewrite <- pow2_succ; reflexivity).
    lra. }
  rewrite O. eexists. split; [reflexivity|]. rewrite Qred_correct.
  split; assumption.
Qed.

(** ** Operands and results *)

Lemma Qsign_of_Z (z : Z) : Qsign (inject_Z z) = (z ?= 0).
Proof. reflexivity. Qed.

Lemma Qsign_of_N_pos (n : N) : (0 < n)%N -> Qsign (inject_Z (Z.of_N n)) = Gt.
Proof. intros H. rewrite Qsign_of_Z. apply Z.compare_gt_iff. lia. Qed.

Lemma Qsign_Gt (q : Q) : Qsign q = Gt <-> (0 < q)%Q.
Proof.
  unfold Qsign, Qlt. simpl. rewrite Z.mul_1_r.
  rewrite Z.compare_gt_iff. reflexivity.
Qed.

Lemma Qsign_Eq (q : Q) : Qsign q = Eq <-> (q == 0)%Q.
Proof.
  unfold Qsign, Qeq. simpl. rewrite Z.mul_1_r.
  rewrite Z.compare_eq_iff. reflexivity.
Qed.

Lemma Qsign_Lt (q : Q) : Qsign q = Lt <-> (q < 0)%Q.
Proof.
  unfold Qsign, Qlt. simpl. rewrite Z.mul_1_r.
  rewrite Z.compare_lt_iff. reflexivity.
Qed.

Lemma of_N_pos (n : N) : (0 < n)%N -> (0 < inject_Z (Z.of_N n))%Q.
Proof. intros H. apply Qsign_Gt, Qsign_of_N_pos, H. Qed.

Lemma of_N_nonneg (n : N) : (0 <= inject_Z (Z.of_N n))%Q.
Proof. rewrite <- (Zle_Qle 0). lia. Qed.

Lemma naturalWidth_lt (i : Image) : (Z.of_N (naturalWidth i) < 2 ^ 32)%Z.
Proof.
  unfold naturalWidth.
  pose proof (N.mod_lt (intrinsic_width i) (2 ^ 32) ltac:(discriminate)) as H.
  change (2 ^ 32)%Z with (Z.of_N (2 ^ 32)). lia.
Qed.

Lemma naturalHeight_lt (i : Image) : (Z.of_N (naturalHeight i) < 2 ^ 32)%Z.
Proof.
  unfold naturalHeight.
  pose proof (N.mod_lt (intrinsic_height i) (2 ^ 32) ltac:(discriminate)) as H.
  change (2 ^ 32)%Z with (Z.of_N (2 ^ 32)). lia.
Qed.

Lemma max_value_pos : (0 < max_value)%Q.
Proof. unfold max_value. rewrite <- (Zlt_Qlt 0). reflexivity. Qed.

Lemma max_value_lt : (max_value < pow2 1024)%Q.
Proof.
  unfold max_value. rewrite (pow2_Z 1024) by discriminate.
  rewrite <- Zlt_Qlt. reflexivity.
Qed.

Lemma clamp_cases (q : Q) :
  ((max_value <= q)%Q /\ clamp q = max_value)
  \/ ((q <= - max_value)%Q /\ clamp q = (- max_value)%Q)
  \/ ((- max_value < q)%Q /\ (q < max_value)%Q /\ clamp q = q).
Proof.
  unfold clamp.
  destruct (Qle_bool max_value q) eqn:A.
  - left. split; [apply Qle_bool_iff, A | reflexivity].
  - destruct (Qle_bool q (- max_value)) eqn:B.
    + right; left. split; [apply Qle_bool_iff, B | reflexivity].
    + right; right. split; [|split; [|reflexivity]].
      * apply Qnot_le_lt. intros H. apply Qle_bool_iff in H. congruence.
      * apply Qnot_le_lt. intros H. apply Qle_bool_iff in H. congruence.
Qed.

Lemma clamp_Qeq (q : Q) :
  (- max_value <= q)%Q -> (q <= max_value)%Q -> (clamp q == q)%Q.
Proof.
  intros L U. pose proof max_value_pos as P.
  destruct (clamp_cases q) as [[A ->] | [[A ->] | (_ & _ & ->)]];
    [| |reflexivity]; lra.
Qed.

Lemma clamp_bounds (q : Q) :
  (- max_value <= clamp q)%Q /\ (clamp q <= max_value)%Q.
Proof.
  pose proof max_value_pos as P.
  destruct (clamp_cases q) as [[A ->] | [[A ->] | (A & B & ->)]]; lra.
Qed.

Lemma clamp_mono (a b : Q) : (a <= b)%Q -> (clamp a <= clamp b)%Q.
Proof.
  intros H. pose proof max_value_pos as P.
  destruct (clamp_cases a) as [[A ->] | [[A ->] | (A1 & A2 & ->)]];
    destruct (clamp_cases b) as [[B ->] | [[B ->] | (B1 & B2 & ->)]]; lra.
Qed.

Lemma clamp_nonneg (q : Q) : (0 <= q)%Q -> (0 <= clamp q)%Q.
Proof.
  intros H. pose proof max_value_pos as P.
  destruct (clamp_cases q) as [[A ->] | [[A ->] | (A1 & A2 & ->)]]; lra.
Qed.

Lemma clamp_nonpos (q : Q) : (q <= 0)%Q -> (clamp q <= 0)%Q.
Proof.
  intros H. pose proof max_value_pos as P.
  destruct (clamp_cases q) as [[A ->] | [[A ->] | (A1 & A2 & ->)]]; lra.
Qed.

Lemma clamp_zero (q : Q) : (q == 0)%Q -> (clamp q == 0)%Q.
Proof.
  intros H. pose proof max_value_pos as P.
  rewrite clamp_Qeq; [exact H | lra | lra].
Qed.

Lemma pow2_64_le_max : (pow2 64 <= max_value)%Q.
Proof.
  unfold max_value. rewrite (pow2_Z 64) by discriminate.
  rewrite <- Zle_Qle. apply Z.leb_le. vm_compute. reflexivity.
Qed.

(** An operand up to [2 ^ 64] in magnitude is read as it is. *)
Lemma clamp_small (q : Q) :
  (- pow2 64 <= q)%Q -> (q <= pow2 64)%Q -> (clamp q == q)%Q.
Proof.
  intros L U. pose proof pow2_64_le_max. apply clamp_Qeq; lra.
Qed.

Lemma clamp_of_N (n : N) :
  Z.of_N n < 2 ^ 32 -> (clamp (inject_Z (Z.of_N n)) == inject_Z (Z.of_N n))%Q.
Proof.
  intros H. pose proof (of_N_nonneg n) as P.
  assert (U : (inject_Z (Z.of_N n) <= pow2 64)%Q).
  { rewrite (pow2_Z 64) by discriminate. rewrite <- Zle_Qle.
    assert (2 ^ 32 <= 2 ^ 64) by (apply Z.leb_le; reflexivity). lia. }
  pose proof (pow2_pos 64).
  apply clamp_small; lra.
Qed.

Lemma rnd_not_NaN (q : Q) : rnd q <> NaN.
Proof.
  unfold rnd. destruct (q ?= 0)%Q; [discriminate| |];
    match goal with |- context [if ?b then _ else _] => destruct b end;
    discriminate.
Qed.

Lemma rnd_max_value : rnd max_value = Fin max_value.
Proof. vm_compute. reflexivity. Qed.

(** Within the range of the finite numbers the result is finite. *)
Lemma rnd_finite (q : Q) :
  (- max_value <= q)%Q -> (q <= max_value)%Q -> exists r, rnd q = Fin r.
Proof.
  intros L U.
  pose proof (rnd_mono _ _ U) as HU. rewrite rnd_max_value in HU.
  assert (L' : (- max_value <= q)%Q) by exact L.
  pose proof (rnd_mono _ _ L') as HL. rewrite rnd_opp, rnd_max_value in HL.
  destruct (rnd q) as [r | | |]; cbn in HU, HL; try contradiction.
  exists r. reflexivity.
Qed.

Lemma mul_Fin (a b : Q) : mul (Fin a) (Fin b) = rnd (clamp a * clamp b).
Proof. reflexivity. Qed.

Lemma div_Fin (a b : Q) :
  ~ (b == 0)%Q -> div (Fin a) (Fin b) = rnd (clamp a / clamp b).
Proof.
  intros H. unfold div. destruct (Qsign b) eqn:E; try reflexivity.
  exfalso. apply H, Qsign_Eq, E.
Qed.

Lemma Math_round_Qeq (a b : Q) :
  (a == b)%Q -> Math_round (Fin a) = Math_round (Fin b).
Proof.
  intros H. unfold Math_round. f_equal.
  apply Qfloor_comp. rewrite H. reflexivity.
Qed.

Lemma ge_one_Fin (q : Q) : ge_one (Fin q) = true <-> (1 <= q)%Q.
Proof.
  unfold ge_one. destruct (1 ?= q)%Q eqn:E.
  - apply Qeq_alt in E. split; [intros _; rewrite E; apply Qle_refl | reflexivity].
  - apply Qlt_alt in E. split; [intros _; apply Qlt_le_weak, E | reflexivity].
  - apply Qgt_alt in E. split; [discriminate | intros H].
    exfalso. apply (Qlt_irrefl q). eapply Qlt_le_trans; eassumption.
Qed.

Lemma ge_one_of_Z (z : Z) : ge_one (of_Z z) = true <-> 1 <= z.
Proof.
  unfold of_Z. rewrite ge_one_Fin.
  change 1%Q with (inject_Z 1). rewrite <- Zle_Qle. reflexivity.
Qed.

(** A rounded value reaches one exactly from one half up. *)
Lemma ge_one_round (q : Q) :
  ge_one (Math_round (Fin q)) = true <-> (1 # 2 <= q)%Q.
Proof.
  unfold Math_round. rewrite ge_one_of_Z. split; intros H.
  - assert (L : (inject_Z 1 <= q + (1 # 2))%Q).
    { eapply Qle_trans; [|apply Qfloor_le]. rewrite <- Zle_Qle. exact H. }
    apply (Qplus_le_l _ _ (1 # 2)). eapply Qle_trans; [|exact L].
    unfold Qle. simpl. lia.
  - rewrite <- (Qfloor_Z 1). apply Qfloor_resp_le.
    eapply Qle_trans; [|apply Qplus_le_l; exact H].
    unfold Qle. simpl. lia.
Qed.

Lemma rnd_half : rnd (1 # 2) = Fin (1 # 2).
Proof. vm_compute. reflexivity. Qed.

(** From one half up the rounded quotient or product gives at least 1. *)
Lemma ge_one_rnd_true (q : Q) :
  (1 # 2 <= q)%Q -> ge_one (Math_round (rnd q)) = true.
Proof.
  intros H. pose proof (rnd_mono _ _ H) as M. rewrite rnd_half in M.
  destruct (rnd q) as [r | | |]; cbn in M; try contradiction.
  - apply ge_one_round, M.
  - reflexivity.
Qed.

(** Below a binary64 number under one half it gives less than 1. *)
Lemma ge_one_rnd_false (q t : Q) :
  rnd t = Fin t -> (t < 1 # 2)%Q -> (q <= t)%Q ->
  ge_one (Math_round (rnd q)) = false.
Proof.
  intros Et Lt H. pose proof (rnd_mono _ _ H) as M. rewrite Et in M.
  destruct (rnd q) as [r | | |]; cbn in M; try contradiction.
  - destruct (ge_one (Math_round (Fin r))) eqn:G; [|reflexivity].
    apply ge_one_round in G. lra.
  - reflexivity.
Qed.
(** ** The error of a rounded product or quotient

    A product or quotient in the middle of the exponent range is within a
    relative error of [2 ^ -53] of the exact value; the two steps of the
    percent scaling and of the keep-aspect height are together within
    [2 ^ -51]. *)

Ltac pow2_eval :=
  repeat match goal with
  | |- context [pow2 (Zpos ?p)] =>
      let v := eval vm_compute in (pow2 (Zpos p)) in
      change (pow2 (Zpos p)) with v
  | |- context [pow2 (Zneg ?p)] =>
      let v := eval vm_compute in (pow2 (Zneg p)) in
      change (pow2 (Zneg p)) with v
  | H : context [pow2 (Zpos ?p)] |- _ =>
      let v := eval vm_compute in (pow2 (Zpos p)) in
      change (pow2 (Zpos p)) with v in H
  | H : context [pow2 (Zneg ?p)] |- _ =>
      let v := eval vm_compute in (pow2 (Zneg p)) in
      change (pow2 (Zneg p)) with v in H
  end.

Lemma scale_mono (n a b : Q) :
  (0 <= n)%Q -> (a <= b)%Q -> (n * a <= n * b)%Q.
Proof.
  intros Hn Hab. rewrite (Qmult_comm n a), (Qmult_comm n b).
  apply Qmult_le_compat_r; assumption.
Qed.

Lemma rnd_rel_mid (q : Q) :
  (pow2 (-100) <= q)%Q -> (q <= pow2 100)%Q ->
  exists r, rnd q = Fin r
            /\ (q * (1 - pow2 (-53)) <= r)%Q /\ (r <= q * (1 + pow2 (-53)))%Q.
Proof.
  intros L U.
  destruct (rnd_rel q) as (r & E & A & B).
  - eapply Qle_trans; [apply (pow2_le (-1022) (-100)); lia | exact L].
  - eapply Qle_trans; [exact U | apply pow2_le; lia].
  - exists r. split; [exact E|]. split; lra.
Qed.

Lemma of_N_range (n : N) :
  (0 < n)%N -> Z.of_N n < 2 ^ 32 ->
  (1 <= inject_Z (Z.of_N n))%Q /\ (inject_Z (Z.of_N n) <= pow2 32)%Q.
Proof.
  intros P L. split.
  - change 1%Q with (inject_Z 1). rewrite <- Zle_Qle. lia.
  - rewrite (pow2_Z 32) by discriminate. rewrite <- Zle_Qle. lia.
Qed.

Lemma quot_range (x y : Q) :
  (1 <= x)%Q -> (x <= pow2 32)%Q -> (1 <= y)%Q -> (y <= pow2 32)%Q ->
  (pow2 (-32) <= x / y)%Q /\ (x / y <= pow2 32)%Q.
Proof.
  intros X1 X2 Y1 Y2. pow2_eval. split.
  - apply Qle_shift_div_l; lra.
  - apply Qle_shift_div_r; lra.
Qed.

(** The aspect ratio the code computes for positive natural dimensions. *)
Lemma aspect_bounds (i : Image) :
  (0 < naturalWidth i)%N -> (0 < naturalHeight i)%N ->
  let A := (inject_Z (Z.of_N (naturalWidth i))
            / inject_Z (Z.of_N (naturalHeight i)))%Q in
  exists a,
    div (of_N (naturalWidth i)) (of_N (naturalHeight i)) = Fin a
    /\ (A * (1 - pow2 (-53)) <= a)%Q /\ (a <= A * (1 + pow2 (-53)))%Q
    /\ (pow2 (-32) <= A)%Q /\ (A <= pow2 32)%Q
    /\ rnd A = Fin a.
Proof.
  intros W H A.
  destruct (of_N_range _ W (naturalWidth_lt i)) as [W1 W2].
  destruct (of_N_range _ H (naturalHeight_lt i)) as [H1 H2].
  destruct (quot_range _ _ W1 W2 H1 H2) as [A1 A2]. fold A in A1, A2.
  destruct (rnd_rel_mid A) as (a & E & L & U).
  - eapply Qle_trans; [apply (pow2_le (-100) (-32)); lia | exact A1].
  - eapply Qle_trans; [exact A2 | apply pow2_le; lia].
  - exists a. split; [|repeat split; assumption].
    unfold of_N, of_Z. rewrite div_Fin by lra. rewrite <- E.
    apply rnd_comp. unfold A.
    rewrite (clamp_of_N _ (naturalWidth_lt i)).
    rewrite (clamp_of_N _ (naturalHeight_lt i)). reflexivity.
Qed.

Lemma aspect_pos (i : Image) :
  (0 < naturalWidth i)%N -> (0 < naturalHeight i)%N ->
  exists a,
    div (of_N (naturalWidth i)) (of_N (naturalHeight i)) = Fin a
    /\ Qsign a = Gt.
Proof.
  intros W H. destruct (aspect_bounds i W H) as (a & E & L & _ & A1 & _ & _).
  exists a. split; [exact E|]. apply Qsign_Gt.
  pow2_eval. lra.
Qed.

(** [percent / 100] for a percent in the range of the slider. *)
Lemma factor_rel (p : Q) :
  (1 <= p)%Q -> (p <= 200)%Q ->
  exists f,
    div (Fin p) (of_Z 100) = Fin f
    /\ (p * (1 # 100) * (1 - pow2 (-53)) <= f)%Q
    /\ (f <= p * (1 # 100) * (1 + pow2 (-53)))%Q.
Proof.
  intros L U.
  destruct (rnd_rel_mid (p * (1 # 100))) as (f & E & A & B).
  - pow2_eval. lra.
  - pow2_eval. lra.
  - exists f. split; [|split; assumption].
    unfold of_Z. rewrite div_Fin by (intros H; discriminate H).
    rewrite <- E. apply rnd_comp.
    rewrite (clamp_small p) by (pow2_eval; lra).
    rewrite (clamp_small (inject_Z 100)) by (pow2_eval; unfold Qle; simpl; lia).
    reflexivity.
Qed.

(** The scaled dimension before [Math.round], for a percent in the range of
    the slider. *)
Lemma percent_rel (n : N) (p : Q) :
  Z.of_N n < 2 ^ 32 -> (1 <= p)%Q -> (p <= 200)%Q ->
  let e := (inject_Z (Z.of_N n) * p * (1 # 100))%Q in
  exists c,
    mul (of_N n) (div (Fin p) (of_Z 100)) = Fin c
    /\ (e * (1 - pow2 (-51)) <= c)%Q /\ (c <= e * (1 + pow2 (-51)))%Q.
Proof.
  intros Hn L U e.
  destruct (factor_rel p L U) as (f & Ef & Lf & Uf). rewrite Ef.
  unfold of_N, of_Z. rewrite mul_Fin.
  assert (Cf : (clamp f == f)%Q) by (apply clamp_small; pow2_eval; lra).
  destruct (N.eq_0_gt_0_cases n) as [-> | P].
  - exists 0%Q. split.
    + apply rnd_zero. rewrite (clamp_zero (inject_Z (Z.of_N 0))) by reflexivity.
      ring.
    + unfold e. change (inject_Z (Z.of_N 0)) with 0%Q. split; lra.
  - destruct (of_N_range n P Hn) as [N1 N2].
    set (m := inject_Z (Z.of_N n)) in *.
    assert (M1 : (m * (p * (1 # 100) * (1 - pow2 (-53))) <= m * f)%Q)
      by (apply scale_mono; [lra | exact Lf]).
    assert (M2 : (m * f <= m * (p * (1 # 100) * (1 + pow2 (-53))))%Q)
      by (apply scale_mono; [lra | exact Uf]).
    assert (M3 : (m * (1 # 200) <= m * f)%Q)
      by (apply scale_mono; [lra | pow2_eval; lra]).
    assert (M4 : (m * f <= m * 4)%Q)
      by (apply scale_mono; [lra | pow2_eval; lra]).
    destruct (rnd_rel_mid (m * f)) as (c & E & A & B).
    + pow2_eval. lra.
    + pow2_eval. lra.
    + exists c. split.
      * rewrite <- E. apply rnd_comp.
        unfold m. rewrite (clamp_of_N _ Hn), Cf. reflexivity.
      * assert (P0 : (0 <= e)%Q).
        { unfold e. fold m.
          setoid_replace (m * p * (1 # 100))%Q with (m * (p * (1 # 100)))%Q
            by ring.
          setoid_replace 0%Q with (m * 0)%Q by ring.
          apply scale_mono; lra. }
        assert (Ee : (e == m * (p * (1 # 100)))%Q) by (unfold e; ring).
        set (g := (m * (p * (1 # 100)))%Q) in *.
        assert (G1 : (g * (1 - pow2 (-53)) <= m * f)%Q).
        { eapply Qle_trans; [|exact M1]. unfold g.
          apply Qle_lteq. right. ring. }
        assert (G2 : (m * f <= g * (1 + pow2 (-53)))%Q).
        { eapply Qle_trans; [exact M2|]. unfold g.
          apply Qle_lteq. right. ring. }
        set (mf := (m * f)%Q) in *.
        rewrite Ee. rewrite Ee in P0. pow2_eval. split; lra.
Qed.

(** A width from 1 up divided by the aspect ratio, before [Math.round]. *)
Lemma over_aspect_rel (x A a : Q) :
  (pow2 (-32) <= A)%Q -> (A <= pow2 32)%Q ->
  (A * (1 - pow2 (-53)) <= a)%Q -> (a <= A * (1 + pow2 (-53)))%Q ->
  (1 <= x)%Q -> (x <= pow2 64)%Q ->
  exists c,
    div (Fin x) (Fin a) = Fin c
    /\ (x / A * (1 - pow2 (-51)) <= c)%Q /\ (c <= x / A * (1 + pow2 (-51)))%Q.
Proof.
  intros A1 A2 La Ua X1 X2.
  assert (Pa : (0 < a)%Q) by (pow2_eval; lra).
  assert (PA : (0 < A)%Q) by (pow2_eval; lra).
  assert (Ra : (a <= pow2 33)%Q) by (pow2_eval; lra).
  assert (Ca : (clamp a == a)%Q) by (apply clamp_small; pow2_eval; lra).
  assert (Cx : (clamp x == x)%Q) by (apply clamp_small; pow2_eval; lra).
  set (s := (x / a)%Q). set (t := (x / A)%Q).
  assert (Es : (s * a == x)%Q) by (unfold s; field; lra).
  assert (Et : (t * A == x)%Q) by (unfold t; field; lra).
  assert (Ps : (0 <= s)%Q).
  { unfold s. apply Qle_shift_div_l; [exact Pa | lra]. }
  assert (Pt : (0 <= t)%Q).
  { unfold t. apply Qle_shift_div_l; [exact PA | lra]. }
  assert (S1 : (s * (1 - pow2 (-53)) <= t)%Q).
  { apply (Qmult_le_r _ _ A PA). rewrite Et, <- Es.
    setoid_replace (s * (1 - pow2 (-53)) * A)%Q
      with (s * (A * (1 - pow2 (-53))))%Q by ring.
    apply scale_mono; assumption. }
  assert (S2 : (t <= s * (1 + pow2 (-53)))%Q).
  { apply (Qmult_le_r _ _ A PA). rewrite Et, <- Es.
    setoid_replace (s * (1 + pow2 (-53)) * A)%Q
      with (s * (A * (1 + pow2 (-53))))%Q by ring.
    apply scale_mono; assumption. }
  assert (R1 : (pow2 (-100) <= s)%Q).
  { unfold s. apply Qle_shift_div_l; [exact Pa|]. pow2_eval. lra. }
  assert (R2 : (s <= pow2 100)%Q).
  { unfold s. apply Qle_shift_div_r; [exact Pa|]. pow2_eval. lra. }
  destruct (rnd_rel_mid s R1 R2) as (c & E & Lc & Uc).
  exists c. split.
  - rewrite div_Fin by lra. rewrite <- E. apply rnd_comp.
    rewrite Ca, Cx. reflexivity.
  - pow2_eval. split; lra.
Qed.
(** ** Rounding to an integer *)

Lemma Qfloor_unique (x : Q) (z : Z) :
  (inject_Z z <= x)%Q -> (x < inject_Z (z + 1))%Q -> Qfloor x = z.
Proof.
  intros L U. apply Z.le_antisymm.
  - apply Z.lt_succ_r. rewrite Zlt_Qlt.
    eapply Qle_lt_trans; [apply Qfloor_le | exact U].
  - rewrite <- (Qfloor_Z z). apply Qfloor_resp_le, L.
Qed.

Lemma inject_Z_succ (z : Z) : (inject_Z (z + 1) == inject_Z z + 1)%Q.
Proof. rewrite inject_Z_plus. reflexivity. Qed.

Lemma inject_Z_pred (z : Z) : (inject_Z (z - 1) == inject_Z z - 1)%Q.
Proof. unfold Z.sub. rewrite inject_Z_plus, inject_Z_opp. reflexivity. Qed.

(** The integer [Math.round] gives lies within one half of its argument. *)
Lemma round_bounds (q : Q) :
  exists z, Math_round (Fin q) = of_Z z
            /\ (q - (1 # 2) < inject_Z z)%Q /\ (inject_Z z <= q + (1 # 2))%Q.
Proof.
  exists (Qfloor (q + (1 # 2))). split; [reflexivity|]. split.
  - pose proof (Qlt_floor (q + (1 # 2))) as H.
    rewrite inject_Z_succ in H. lra.
  - apply Qfloor_le.
Qed.

Lemma round_unique (q : Q) (z : Z) :
  (q - (1 # 2) < inject_Z z)%Q -> (inject_Z z <= q + (1 # 2))%Q ->
  Math_round (Fin q) = of_Z z.
Proof.
  intros L U. unfold Math_round. f_equal.
  apply Qfloor_unique; [exact U|]. rewrite inject_Z_succ. lra.
Qed.

Lemma round_of_Z (z : Z) : Math_round (of_Z z) = of_Z z.
Proof. apply round_unique; lra. Qed.

Lemma of_Z_inj (x y : Z) : of_Z x = of_Z y -> x = y.
Proof. unfold of_Z, inject_Z. intros H. injection H as H. exact H. Qed.

Lemma round_mono (a b : Q) (x y : Z) :
  (a <= b)%Q -> Math_round (Fin a) = of_Z x -> Math_round (Fin b) = of_Z y ->
  x <= y.
Proof.
  intros H Ea Eb.
  change (of_Z (Qfloor (a + (1 # 2))) = of_Z x) in Ea.
  change (of_Z (Qfloor (b + (1 # 2))) = of_Z y) in Eb.
  apply of_Z_inj in Ea, Eb. subst x y.
  apply Qfloor_resp_le. lra.
Qed.

(** ** The pipeline and the target size *)

Section Pipeline.

Variable toBlob : Canvas -> string -> num -> option Blob.

Lemma resize_sizes (st : State) (d : Dom) (i : Image) (c : Canvas) :
  image st = Some i -> canvasRef d = Some c ->
  pipeline_size toBlob st d (target st i).
Proof.
  intros Hi Hc. unfold pipeline_size, resizeToBlobUrl.
  rewrite Hi, Hc. destruct (target st i) as [w h].
  destruct (toBlob (drawn i w h) (format st) (quality st)); cbn.
  - split; [reflexivity|]. intros r H. injection H as <-. reflexivity.
  - split; [reflexivity|]. intros r H. discriminate.
Qed.

(** Every path of [resizeToBlobUrl] resolves. *)
Lemma resize_resolves (st : State) (d : Dom) :
  exists v, fst (resizeToBlobUrl toBlob st d) = Fulfilled v.
Proof.
  unfold resizeToBlobUrl.
  destruct (image st) as [i|]; [|eexists; reflexivity].
  destruct (canvasRef d); [|eexists; reflexivity].
  destruct (target st i) as [w h].
  destruct (toBlob _ _ _); eexists; reflexivity.
Qed.

(** The canvas size fixes what [pipeline_size] can hold of. *)
Lemma pipeline_size_unique (st : State) (d : Dom) (a b : num * num) :
  pipeline_size toBlob st d a -> pipeline_size toBlob st d b -> a = b.
Proof.
  intros [Ha _] [Hb _]. rewrite Ha in Hb. injection Hb as H. exact H.
Qed.

End Pipeline.

Lemma target_percent (st : State) (i : Image) :
  usePercent st = true ->
  target st i
  = (Math_round (mul (of_N (naturalWidth i)) (div (percent st) (of_Z 100))),
     Math_round (mul (of_N (naturalHeight i)) (div (percent st) (of_Z 100)))).
Proof. intros Hp. unfold target. rewrite Hp. reflexivity. Qed.

Lemma target_locked (s : State) (i : Image) :
  usePercent s = false -> keepAspect s = true ->
  target s i
  = (width s,
     Math_round (div (width s)
                     (div (of_N (naturalWidth i)) (of_N (naturalHeight i))))).
Proof. intros Hp Hk. unfold target. rewrite Hp, Hk. reflexivity. Qed.

Lemma target_free (s : State) (i : Image) :
  usePercent s = false -> keepAspect s = false ->
  target s i = (width s, height s).
Proof. intros Hp Hk. unfold target. rewrite Hp, Hk. reflexivity. Qed.

(** ** Scaling by an integer percent *)

Ltac to_Q H :=
  repeat (rewrite inject_Z_plus in H || rewrite inject_Z_mult in H
          || rewrite inject_Z_opp in H);
  repeat match type of H with
         | context [inject_Z (Zpos ?p)] =>
             change (inject_Z (Zpos p)) with (Qmake (Zpos p) 1) in H
         end.

(** What [Math.round] makes of a dimension scaled by an integer percent of
    the slider: the quotient of [n * k + 50] by 100, except that at an exact
    tie, [n * k / 100] halfway between two integers, it may be one less. *)
Lemma round_percent (n : N) (k : Z) :
  Z.of_N n < 2 ^ 32 -> 1 <= k <= 200 ->
  exists w,
    Math_round (mul (of_N n) (div (of_Z k) (of_Z 100))) = of_Z w
    /\ ((Z.of_N n * k + 50) mod 100 <> 0 -> w = (Z.of_N n * k + 50) / 100)
    /\ ((Z.of_N n * k + 50) mod 100 = 0 ->
        w = (Z.of_N n * k + 50) / 100 \/ w = (Z.of_N n * k + 50) / 100 - 1).
Proof.
  intros Hn Hk.
  assert (K1 : (1 <= inject_Z k)%Q)
    by (change 1%Q with (inject_Z 1); rewrite <- Zle_Qle; lia).
  assert (K2 : (inject_Z k <= 200)%Q)
    by (change 200%Q with (inject_Z 200); rewrite <- Zle_Qle; lia).
  destruct (percent_rel n (inject_Z k) Hn K1 K2) as (c & E & L & U).
  unfold of_Z at 1. rewrite E.
  exists (Qfloor (c + (1 # 2))). split; [reflexivity|].
  set (t := Z.of_N n * k) in *.
  set (m := (t + 50) / 100). set (r := (t + 50) mod 100).
  pose proof (Z.div_mod (t + 50) 100 ltac:(lia)) as D.
  pose proof (Z.mod_pos_bound (t + 50) 100 ltac:(lia)) as B.
  fold m r in D, B.
  assert (T0 : 0 <= t <= 200 * 2 ^ 32) by (unfold t; nia).
  assert (Et : (inject_Z (Z.of_N n) * inject_Z k == inject_Z t)%Q)
    by (unfold t; rewrite inject_Z_mult; reflexivity).
  assert (Q0 : (0 <= inject_Z t)%Q) by (rewrite <- (Zle_Qle 0); lia).
  assert (Q1 : (inject_Z t <= inject_Z (200 * 2 ^ 32))%Q)
    by (rewrite <- Zle_Qle; lia).
  assert (Q2 : (inject_Z (t + 50) == inject_Z (100 * m + r))%Q)
    by (rewrite D; reflexivity).
  to_Q Q2.
  assert (Q3 : (0 <= inject_Z r)%Q) by (rewrite <- (Zle_Qle 0); lia).
  assert (Q4 : (inject_Z r <= 99)%Q)
    by (change 99%Q with (inject_Z 99); rewrite <- Zle_Qle; lia).
  change (inject_Z (200 * 2 ^ 32)) with 858993459200%Q in Q1.
  rewrite Et in L, U. pow2_eval.
  split.
  - intros R.
    assert (Q5 : (1 <= inject_Z r)%Q)
      by (change 1%Q with (inject_Z 1); rewrite <- Zle_Qle; lia).
    apply Qfloor_unique; [|rewrite inject_Z_succ]; lra.
  - intros R. assert (Q5 : (inject_Z r == 0)%Q) by (rewrite R; reflexivity).
    destruct (Qlt_le_dec (c + (1 # 2)) (inject_Z m)) as [G | G].
    + right. apply Qfloor_unique.
      * rewrite inject_Z_pred. lra.
      * replace (m - 1 + 1) with m by lia. exact G.
    + left. apply Qfloor_unique; [exact G|]. rewrite inject_Z_succ. lra.
Qed.

(** A dimension scaled by an integer percent of the slider reaches 1 exactly
    when the natural dimension times the percent reaches 50. *)
Lemma ge_one_percent (n : N) (k : Z) :
  Z.of_N n < 2 ^ 32 -> 1 <= k <= 200 ->
  ge_one (Math_round (mul (of_N n) (div (of_Z k) (of_Z 100)))) = true
  <-> 50 <= Z.of_N n * k.
Proof.
  intros Hn Hk.
  destruct (Z.eq_dec (Z.of_N n * k) 50) as [T | T].
  - assert (K : 1 <= k <= 50) by nia.
    assert (C : k = 1 \/ k = 2 \/ k = 5 \/ k = 10 \/ k = 25 \/ k = 50).
    { remember (Z.to_nat k) as j eqn:J.
      assert (Ek : k = Z.of_nat j) by lia. clear J. subst k.
      do 51 (destruct j as [|j]; [lia|]). lia. }
    assert (N0 : forall v : Z, Z.of_N n = v -> n = Z.to_N v)
      by (intros v <-; symmetry; apply N2Z.id).
    split; [intros _; lia | intros _].
    repeat (destruct C as [-> | C]);
      [rewrite (N0 50) by lia | rewrite (N0 25) by lia
      | rewrite (N0 10) by lia | rewrite (N0 5) by lia
      | rewrite (N0 2) by lia | subst k; rewrite (N0 1) by lia];
      vm_compute; reflexivity.
  - assert (K1 : (1 <= inject_Z k)%Q)
      by (change 1%Q with (inject_Z 1); rewrite <- Zle_Qle; lia).
    assert (K2 : (inject_Z k <= 200)%Q)
      by (change 200%Q with (inject_Z 200); rewrite <- Zle_Qle; lia).
    destruct (percent_rel n (inject_Z k) Hn K1 K2) as (c & E & L & U).
    unfold of_Z at 1. rewrite E, ge_one_round.
    set (t := Z.of_N n * k) in *.
    assert (Et : (inject_Z (Z.of_N n) * inject_Z k == inject_Z t)%Q)
      by (unfold t; rewrite inject_Z_mult; reflexivity).
    rewrite Et in L, U. pow2_eval.
    assert (T0 : 0 <= t) by (unfold t; nia).
    assert (Q0 : (0 <= inject_Z t)%Q) by (rewrite <- (Zle_Qle 0); lia).
    split; intros H.
    + destruct (Z_le_gt_dec 50 t) as [G | G]; [exact G | exfalso].
      assert (Q1 : (inject_Z t <= 49)%Q)
        by (change 49%Q with (inject_Z 49); rewrite <- Zle_Qle; lia).
      lra.
    + assert (Q1 : (51 <= inject_Z t)%Q)
        by (change 51%Q with (inject_Z 51); rewrite <- Zle_Qle; lia).
      lra.
Qed.

(** ** The height derived from an integer width *)

(** With positive natural dimensions, the height derived from an integer
    width [z] reaches 1 exactly when [naturalWidth <= 2 * z * naturalHeight]. *)
Lemma ge_one_aspect (i : Image) (z : Z) :
  (0 < naturalWidth i)%N -> (0 < naturalHeight i)%N ->
  ge_one (Math_round
            (div (of_Z z)
                 (div (of_N (naturalWidth i)) (of_N (naturalHeight i)))))
  = true
  <-> Z.of_N (naturalWidth i) <= 2 * z * Z.of_N (naturalHeight i).
Proof.
  intros W H.
  destruct (aspect_bounds i W H) as (a & E & La & Ua & A1 & A2 & Ra).
  cbv zeta in *.
  pose proof (naturalWidth_lt i) as BW. pose proof (naturalHeight_lt i) as BH.
  destruct (of_N_range _ W BW) as [W1 W2].
  destruct (of_N_range _ H BH) as [H1 H2].
  set (nw := Z.of_N (naturalWidth i)) in *.
  set (nh := Z.of_N (naturalHeight i)) in *.
  set (A := (inject_Z nw / inject_Z nh)%Q) in *.
  assert (Pa : (0 < a)%Q) by (pow2_eval; lra).
  assert (Ca : (clamp a == a)%Q) by (apply clamp_small; pow2_eval; lra).
  rewrite E. unfold of_Z. rewrite div_Fin by lra.
  rewrite (rnd_comp _ (clamp (inject_Z z) / a)) by (rewrite Ca; reflexivity).
  destruct (Z_le_gt_dec z 0) as [Z0 | Z0]; [|destruct (Z_le_gt_dec (2 ^ 32) z) as [Z1 | Z1]].
  - (* no positive width *)
    split; intros G; [exfalso | exfalso; unfold nw, nh in *; nia].
    rewrite (ge_one_rnd_false _ 0) in G; [discriminate | reflexivity | lra |].
    apply Qle_shift_div_r; [exact Pa|]. rewrite Qmult_0_l.
    apply clamp_nonpos. change 0%Q with (inject_Z 0).
    rewrite <- Zle_Qle. exact Z0.
  - (* a width too large for the ratio to matter *)
    split; intros _; [unfold nw, nh in *; nia|].
    apply ge_one_rnd_true. apply Qle_shift_div_l; [exact Pa|].
    assert (C : (pow2 32 <= clamp (inject_Z z))%Q).
    { rewrite <- (clamp_small (pow2 32));
        [|pose proof (pow2_pos 32); pose proof (pow2_pos 64); lra
         |apply pow2_le; lia].
      apply clamp_mono. rewrite (pow2_Z 32) by discriminate.
      rewrite <- Zle_Qle. exact Z1. }
    pow2_eval. lra.
  - assert (Z2 : (1 <= inject_Z z)%Q)
      by (change 1%Q with (inject_Z 1); rewrite <- Zle_Qle; lia).
    assert (Z3 : (inject_Z z <= pow2 32)%Q)
      by (rewrite (pow2_Z 32) by discriminate; rewrite <- Zle_Qle; lia).
    assert (Cz : (clamp (inject_Z z) == inject_Z z)%Q)
      by (apply clamp_small; pow2_eval; lra).
    rewrite (rnd_comp _ (inject_Z z / a)) by (rewrite Cz; reflexivity).
    split; intros G.
    + (* the height reaches 1 *)
      destruct (Z_le_gt_dec nw (2 * z * nh)) as [D | D]; [exact D | exfalso].
      assert (Q1 : (inject_Z (2 * z * nh + 1) <= inject_Z nw)%Q)
        by (rewrite <- Zle_Qle; lia).
      to_Q Q1.
      assert (Q2 : (2 * inject_Z z * inject_Z nh * (1 + pow2 (-32))
                    <= inject_Z nw)%Q).
      { assert (Q3 : (inject_Z (2 * z * nh) <= inject_Z (2 ^ 32))%Q)
          by (rewrite <- Zle_Qle; lia).
        to_Q Q3. change (inject_Z (2 ^ 32)) with 4294967296%Q in Q3.
        pow2_eval. lra. }
      assert (Q4 : (2 * inject_Z z * (1 + pow2 (-32)) <= A)%Q).
      { unfold A. apply Qle_shift_div_l; [lra|].
        eapply Qle_trans; [|exact Q2]. apply Qle_lteq. right. ring. }
      rewrite (ge_one_rnd_false _ (34359738367 # 68719476736)) in G;
        [discriminate | vm_compute; reflexivity | lra |].
      apply Qle_shift_div_r; [exact Pa|]. pow2_eval. lra.
    + (* the width is at least half the ratio *)
      apply ge_one_rnd_true. apply Qle_shift_div_l; [exact Pa|].
      assert (Q1 : (A <= inject_Z (2 * z))%Q).
      { unfold A. apply Qle_shift_div_r; [lra|].
        rewrite <- inject_Z_mult, <- Zle_Qle. lia. }
      pose proof (rnd_mono _ _ Q1) as M.
      rewrite Ra, rnd_Z in M.
      * unfold num_le in M. to_Q M. lra.
      * assert (2 ^ 33 <= 2 ^ 53) by (apply Z.leb_le; reflexivity). lia.
Qed.

(** ** What is typed and what is shown *)

Lemma drop_ws_blank (s : list ascii) :
  forallb is_ws s = true -> drop_ws s = [].
Proof.
  unfold drop_ws. induction s as [|c s IH]; [reflexivity|]. cbn.
  destruct (is_ws c); [exact IH | discriminate].
Qed.

Lemma Number_blank (v : string) : blank v = true -> Number v = Fin 0.
Proof.
  unfold blank, Number, trim. intros H.
  rewrite (drop_ws_blank _ H). reflexivity.
Qed.

(** A one-byte character that is not white space. *)
Lemma is_ws2_ascii (a b : ascii) :
  (N_of_ascii a <? 128)%N = true -> is_ws2 a b = false.
Proof.
  intros H. apply N.ltb_lt in H. unfold is_ws2.
  replace (N_of_ascii a =? 194)%N with false; [reflexivity|].
  symmetry. apply N.eqb_neq. lia.
Qed.

Lemma is_ws3_ascii (a b c : ascii) :
  (N_of_ascii a <? 128)%N = true -> is_ws3 a b c = false.
Proof.
  intros H. apply N.ltb_lt in H. unfold is_ws3. cbv zeta.
  replace (N_of_ascii a =? 225)%N with false by (symmetry; apply N.eqb_neq; lia).
  replace (N_of_ascii a =? 226)%N with false by (symmetry; apply N.eqb_neq; lia).
  replace (N_of_ascii a =? 227)%N with false by (symmetry; apply N.eqb_neq; lia).
  replace (N_of_ascii a =? 239)%N with false by (symmetry; apply N.eqb_neq; lia).
  reflexivity.
Qed.

Lemma drop_ws_gen_id (back : bool) (s : list ascii) :
  forallb (fun c => negb (is_ws c) && (N_of_ascii c <? 128)%N) s = true ->
  drop_ws_gen back s = s.
Proof.
  destruct s as [|a r]; [reflexivity|]. cbn [forallb]. intros H.
  apply andb_prop in H as [Ha Hr]. apply andb_prop in Ha as [Ha1 Ha2].
  apply negb_true_iff in Ha1. cbn [drop_ws_gen]. rewrite Ha1.
  destruct r as [|b r2]; [reflexivity|]. cbn [forallb] in Hr.
  apply andb_prop in Hr as [Hb Hr]. apply andb_prop in Hb as [_ Hb2].
  destruct back.
  - rewrite (is_ws2_ascii b a Hb2).
    destruct r2 as [|c r3]; [reflexivity|]. cbn [forallb] in Hr.
    apply andb_prop in Hr as [Hc _]. apply andb_prop in Hc as [_ Hc2].
    rewrite (is_ws3_ascii c b a Hc2). reflexivity.
  - rewrite (is_ws2_ascii a b Ha2).
    destruct r2 as [|c r3]; [reflexivity|].
    rewrite (is_ws3_ascii a b c Ha2). reflexivity.
Qed.

Lemma trim_id (s : list ascii) :
  forallb (fun c => negb (is_ws c) && (N_of_ascii c <? 128)%N) s = true ->
  trim s = s.
Proof.
  intros H. unfold trim, drop_ws. rewrite (drop_ws_gen_id false s H).
  rewrite drop_ws_gen_id; [apply rev_involutive|].
  apply forallb_forall. intros c Hc. apply in_rev in Hc.
  revert c Hc. apply forallb_forall. exact H.
Qed.

Ltac eval_digit :=
  match goal with
  | |- context [digit_val 10 ?c] =>
      let v := eval vm_compute in (digit_val 10 c) in
      change (digit_val 10 c) with v
  end.

Lemma digits_uint_pos (l : Decimal.uint) :
  forall (p : positive) (k : nat),
  exists n,
    digits 10 (list_ascii_of_string
                 (DecimalString.NilEmpty.string_of_uint l)) (Zpos p) k
    = (Zpos (Pos.of_uint_acc l p), (k + n)%nat, []).
Proof.
  induction l as [|l IH|l IH|l IH|l IH|l IH|l IH|l IH|l IH|l IH|l IH];
    intros p k;
    cbn [DecimalString.NilEmpty.string_of_uint list_ascii_of_string digits
           Pos.of_uint_acc];
    try (exists 0%nat; rewrite Nat.add_0_r; reflexivity);
    eval_digit; cbv iota;
    match goal with
    | |- context [digits 10 _ ?acc (S k)] =>
        match goal with
        | |- context [Pos.of_uint_acc l ?q] =>
            replace acc with (Zpos q) by lia;
            destruct (IH q (S k)) as [n E]; exists (S n); rewrite E
        end
    end;
    f_equal; f_equal; lia.
Qed.

Lemma digits_uint (d : Decimal.uint) :
  forall k : nat,
  exists n,
    digits 10 (list_ascii_of_string
                 (DecimalString.NilEmpty.string_of_uint d)) 0 k
    = (Z.of_uint d, (k + n)%nat, [])
    /\ (d <> Decimal.Nil -> n <> 0%nat).
Proof.
  unfold Z.of_uint.
  induction d as [|l IH|l IH|l IH|l IH|l IH|l IH|l IH|l IH|l IH|l IH];
    intros k;
    cbn [DecimalString.NilEmpty.string_of_uint list_ascii_of_string digits
           Pos.of_uint];
    try (exists 0%nat; rewrite Nat.add_0_r;
         split; [reflexivity | intros H; contradiction]);
    eval_digit; cbv iota.
  - change (0 * 10 + 0) with 0.
    destruct (IH (S k)) as (n & E & _). exists (S n). rewrite E.
    split; [f_equal; f_equal; lia | discriminate].
  - destruct (digits_uint_pos l 1 (S k)) as [n E]. exists (S n).
    change (0 * 10 + 1) with (Zpos 1). rewrite E.
    split; [f_equal; f_equal; lia | discriminate].
  - destruct (digits_uint_pos l 2 (S k)) as [n E]. exists (S n).
    change (0 * 10 + 2) with (Zpos 2). rewrite E.
    split; [f_equal; f_equal; lia | discriminate].
  - destruct (digits_uint_pos l 3 (S k)) as [n E]. exists (S n).
    change (0 * 10 + 3) with (Zpos 3). rewrite E.
    split; [f_equal; f_equal; lia | discriminate].
  - destruct (digits_uint_pos l 4 (S k)) as [n E]. exists (S n).
    change (0 * 10 + 4) with (Zpos 4). rewrite E.
    split; [f_equal; f_equal; lia | discriminate].
  - destruct (digits_uint_pos l 5 (S k)) as [n E]. exists (S n).
    change (0 * 10 + 5) with (Zpos 5). rewrite E.
    split; [f_equal; f_equal; lia | discriminate].
  - destruct (digits_uint_pos l 6 (S k)) as [n E]. exists (S n).
    change (0 * 10 + 6) with (Zpos 6). rewrite E.
    split; [f_equal; f_equal; lia | discriminate].
  - destruct (digits_uint_pos l 7 (S k)) as [n E]. exists (S n).
    change (0 * 10 + 7) with (Zpos 7). rewrite E.
    split; [f_equal; f_equal; lia | discriminate].
  - destruct (digits_uint_pos l 8 (S k)) as [n E]. exists (S n).
    change (0 * 10 + 8) with (Zpos 8). rewrite E.
    split; [f_equal; f_equal; lia | discriminate].
  - destruct (digits_uint_pos l 9 (S k)) as [n E]. exists (S n).
    change (0 * 10 + 9) with (Zpos 9). rewrite E.
    split; [f_equal; f_equal; lia | discriminate].
Qed.

Lemma chars_plain (d : Decimal.uint) :
  forallb (fun c => negb (is_ws c) && (N_of_ascii c <? 128)%N)
          (list_ascii_of_string (DecimalString.NilEmpty.string_of_uint d))
  = true.
Proof. induction d; cbn; try reflexivity; exact IHd. Qed.

Lemma not_infinity (d : Decimal.uint) :
  list_eqb (list_ascii_of_string (DecimalString.NilEmpty.string_of_uint d))
           infinity_lit = false.
Proof. destruct d; reflexivity. Qed.

Lemma non_decimal_digits (d : Decimal.uint) :
  non_decimal (list_ascii_of_string (DecimalString.NilEmpty.string_of_uint d))
  = None.
Proof.
  destruct d as [|l|l|l|l|l|l|l|l|l|l]; try reflexivity.
  destruct l; reflexivity.
Qed.

Lemma unsigned_literal_digits (d : Decimal.uint) :
  d <> Decimal.Nil ->
  unsigned_literal
    (list_ascii_of_string (DecimalString.NilEmpty.string_of_uint d))
  = rnd (inject_Z (Z.of_uint d)).
Proof.
  intros H. unfold unsigned_literal, unsigned_decimal.
  rewrite not_infinity.
  destruct (digits_uint d 0) as (n & E & Hn). rewrite E.
  destruct n as [|n]; [exfalso; apply (Hn H); reflexivity|].
  cbn [Nat.add exponent]. unfold scale.
  change (0 <=? 0) with true. cbv iota.
  change (10 ^ 0) with 1. rewrite Z.mul_1_r. reflexivity.
Qed.

Lemma Number_digits (d : Decimal.uint) :
  d <> Decimal.Nil ->
  Number (DecimalString.NilEmpty.string_of_uint d)
  = rnd (inject_Z (Z.of_uint d)).
Proof.
  intros H. unfold Number. rewrite (trim_id _ (chars_plain d)).
  rewrite <- (unsigned_literal_digits d H).
  pose proof (non_decimal_digits d) as N.
  destruct d; try contradiction;
    cbn [DecimalString.NilEmpty.string_of_uint list_ascii_of_string] in *;
    cbv iota; rewrite N; reflexivity.
Qed.

Lemma Number_neg_digits (d : Decimal.uint) :
  d <> Decimal.Nil ->
  Number (String "-" (DecimalString.NilEmpty.string_of_uint d))
  = neg (rnd (inject_Z (Z.of_uint d))).
Proof.
  intros H. unfold Number. rewrite trim_id.
  - cbn [list_ascii_of_string]. cbv iota.
    rewrite (unsigned_literal_digits d H). reflexivity.
  - cbn [list_ascii_of_string forallb]. apply chars_plain.
Qed.

(** An integer up to [2 ^ 53] in magnitude prints all its digits. *)
Lemma toString_of_Z (z : Z) :
  Z.abs z <= 2 ^ 53 -> toString (of_Z z) = Z_to_string z.
Proof.
  intros H. unfold toString, of_Z, is_safe_integer.
  cbn [Qnum Qden inject_Z]. rewrite Z.mod_1_r, Z.div_1_r.
  apply Z.leb_le in H. rewrite H. reflexivity.
Qed.

Lemma nil_zero_string (d : Decimal.uint) :
  d <> Decimal.Nil ->
  DecimalString.NilZero.string_of_uint d
  = DecimalString.NilEmpty.string_of_uint d.
Proof. destruct d; [contradiction | reflexivity ..]. Qed.

(** What the field shows for such an integer reads back as that integer. *)
Lemma Number_toString (z : Z) :
  Z.abs z <= 2 ^ 53 -> Number (toString (of_Z z)) = of_Z z.
Proof.
  intros Hz. rewrite (toString_of_Z z Hz). unfold Z_to_string.
  destruct z as [|p|p]; [reflexivity| |];
    cbn [Z.to_int DecimalString.NilZero.string_of_int];
    rewrite (nil_zero_string _ (DecimalPos.Unsigned.to_uint_nonnil p)).
  - rewrite (Number_digits _ (DecimalPos.Unsigned.to_uint_nonnil p)).
    unfold Z.of_uint. rewrite DecimalPos.Unsigned.of_to.
    apply rnd_Z, Hz.
  - rewrite (Number_neg_digits _ (DecimalPos.Unsigned.to_uint_nonnil p)).
    unfold Z.of_uint. rewrite DecimalPos.Unsigned.of_to.
    rewrite rnd_Z by exact Hz. reflexivity.
Qed.

Lemma or_zero_of_Z (z : Z) : or_zero (of_Z z) = of_Z z.
Proof.
  unfold or_zero, truthy, of_Z. cbn [Qnum inject_Z].
  destruct (Z.eqb_spec z 0) as [-> | _]; reflexivity.
Qed.

(** ** Target size *)

(** C4, as the code has it.  In percent mode with an integer percent [k] of
    the slider, 1 to 200, the pipeline works at integers [w] by [h]: [w] is
    [naturalWidth * k / 100] rounded half up, that is the quotient of
    [naturalWidth * k + 50] by 100, unless [naturalWidth * k / 100] lies
    exactly halfway between two integers, where [w] is that quotient or one
    less; and the same for [h]. *)
Theorem percent_size
  (toBlob : Canvas -> string -> num -> option Blob)
  (st : State) (d : Dom) (i : Image) (c : Canvas) (k : Z) :
  image st = Some i -> canvasRef d = Some c -> usePercent st = true ->
  percent st = of_Z k -> 1 <= k <= 200 ->
  let tw := Z.of_N (naturalWidth i) * k + 50 in
  let th := Z.of_N (naturalHeight i) * k + 50 in
  exists w h : Z,
    pipeline_size toBlob st d (of_Z w, of_Z h)
    /\ (tw mod 100 <> 0 -> w = tw / 100)
    /\ (tw mod 100 = 0 -> w = tw / 100 \/ w = tw / 100 - 1)
    /\ (th mod 100 <> 0 -> h = th / 100)
    /\ (th mod 100 = 0 -> h = th / 100 \/ h = th / 100 - 1).
Proof.
  intros Hi Hc Hp Ek Hk tw th.
  destruct (round_percent (naturalWidth i) k (naturalWidth_lt i) Hk)
    as (w & Ew & W1 & W2).
  destruct (round_percent (naturalHeight i) k (naturalHeight_lt i) Hk)
    as (h & Eh & H1 & H2).
  exists w, h. split; [|repeat split; assumption].
  replace (of_Z w, of_Z h) with (target st i);
    [eapply resize_sizes; eassumption|].
  rewrite (target_percent st i Hp), Ek, Ew, Eh. reflexivity.
Qed.

Lemma percent_size_witness :
  image half_size = Some (picture 800 600)
  /\ canvasRef dom0 = Some blank_canvas
  /\ usePercent half_size = true
  /\ percent half_size = of_Z 50
  /\ 1 <= 50 <= 200
  /\ pipeline_size encoder_ok half_size dom0 (of_Z 400, of_Z 300).
Proof.
  assert (K : 1 <= 50 <= 200) by lia.
  destruct (percent_size encoder_ok half_size dom0 (picture 800 600)
              blank_canvas 50 eq_refl eq_refl eq_refl eq_refl K)
    as (w & h & P & W & _ & H & _).
  do 4 (split; [reflexivity|]). split; [exact K|].
  rewrite (W ltac:(discriminate)), (H ltac:(discriminate)) in P. exact P.
Defined.

(** C4 as stated fails: a 500 x 750 image at 29 percent is resized to
    145 x 217, where [750 * 29 / 100] is 217.5 and rounds to 218, also when
    the product and the quotient are taken in binary64 in that order. *)
Lemma percent_rounding_counterexample :
  image tie_29 = Some (picture 500 750)
  /\ usePercent tie_29 = true
  /\ percent tie_29 = of_Z 29
  /\ pipeline_size encoder_ok tie_29 dom0 (of_Z 145, of_Z 217)
  /\ output_dims encoder_ok tie_29 dom0 = Some (of_Z 145, of_Z 217)
  /\ Math_round (Fin (inject_Z 750 * inject_Z 29 / inject_Z 100)) = of_Z 218
  /\ Math_round (div (mul (of_Z 750) (of_Z 29)) (of_Z 100)) = of_Z 218
  /\ of_Z 217 <> of_Z 218.
Proof.
  do 3 (split; [reflexivity|]).
  split; [|split; [vm_compute; reflexivity|]].
  - replace (of_Z 145, of_Z 217) with (target tie_29 (picture 500 750))
      by (vm_compute; reflexivity).
    apply (resize_sizes _ tie_29 dom0 (picture 500 750) blank_canvas
             eq_refl eq_refl).
  - split; [reflexivity|]. split; [vm_compute; reflexivity | discriminate].
Qed.

(** C1, as the code has it.  Nothing is clamped: for an image with positive
    natural dimensions the pipeline works at the rounded values themselves.
    In percent mode with an integer percent [k] of the slider, a dimension is
    at least 1 exactly when the natural dimension times [k] is at least 50.
    Outside percent mode the width is the stored width; with keep-aspect and
    an integer stored width [z] the height is at least 1 exactly when
    [naturalWidth <= 2 * z * naturalHeight], and without keep-aspect the
    height is the stored height. *)
Theorem size_not_clamped
  (toBlob : Canvas -> string -> num -> option Blob)
  (st : State) (d : Dom) (i : Image) (c : Canvas) :
  image st = Some i -> canvasRef d = Some c ->
  (0 < naturalWidth i)%N -> (0 < naturalHeight i)%N ->
  let nw := Z.of_N (naturalWidth i) in
  let nh := Z.of_N (naturalHeight i) in
  exists w h,
    pipeline_size toBlob st d (w, h)
    /\ (usePercent st = true ->
        forall k, percent st = of_Z k -> 1 <= k <= 200 ->
          (ge_one w = true <-> 50 <= nw * k)
          /\ (ge_one h = true <-> 50 <= nh * k))
    /\ (usePercent st = false ->
          w = width st
          /\ (keepAspect st = true -> forall z, width st = of_Z z ->
                (ge_one h = true <-> nw <= 2 * z * nh))
          /\ (keepAspect st = false -> h = height st)).
Proof.
  intros Hi Hc Hw Hh nw nh.
  exists (fst (target st i)), (snd (target st i)).
  rewrite <- surjective_pairing.
  split; [eapply resize_sizes; eassumption|].
  split.
  - intros Hp k Ek Hk. rewrite (target_percent st i Hp), Ek. cbn [fst snd].
    split; apply ge_one_percent;
      try exact Hk; [apply naturalWidth_lt | apply naturalHeight_lt].
  - intros Hp. split; [|split].
    + unfold target. rewrite Hp. destruct (keepAspect st); reflexivity.
    + intros Hk z Ez. rewrite (target_locked st i Hp Hk), Ez. cbn [fst snd].
      apply ge_one_aspect; assumption.
    + intros Hk. rewrite (target_free st i Hp Hk). reflexivity.
Qed.

Lemma size_not_clamped_witness :
  image one_percent = Some (picture 10 10)
  /\ canvasRef dom0 = Some blank_canvas
  /\ (0 < naturalWidth (picture 10 10))%N
  /\ (0 < naturalHeight (picture 10 10))%N
  /\ exists w h,
       pipeline_size encoder_ok one_percent dom0 (w, h)
       /\ (usePercent one_percent = true ->
           forall k, percent one_percent = of_Z k -> 1 <= k <= 200 ->
             (ge_one w = true <-> 50 <= 10 * k)
             /\ (ge_one h = true <-> 50 <= 10 * k))
       /\ (usePercent one_percent = false ->
           w = width one_percent
           /\ (keepAspect one_percent = true ->
               forall z, width one_percent = of_Z z ->
                 (ge_one h = true <-> 10 <= 2 * z * 10))
           /\ (keepAspect one_percent = false -> h = height one_percent)).
Proof.
  do 4 (split; [reflexivity|]).
  apply (size_not_clamped encoder_ok one_percent dom0 (picture 10 10)
           blank_canvas eq_refl eq_refl eq_refl eq_refl).
Defined.

(** C1 as stated fails: a 10 x 10 image at 1 percent has positive natural
    dimensions and a positive factor, and the pipeline works at 0 x 0. *)
Lemma size_clamp_counterexample :
  image one_percent = Some (picture 10 10)
  /\ usePercent one_percent = true
  /\ percent one_percent = of_Z 1
  /\ target one_percent (picture 10 10) = (of_Z 0, of_Z 0)
  /\ pipeline_size encoder_null one_percent dom0 (of_Z 0, of_Z 0)
  /\ pipeline_size encoder_ok one_percent dom0 (of_Z 0, of_Z 0)
  /\ output_dims encoder_ok one_percent dom0 = Some (of_Z 0, of_Z 0)
  /\ ge_one (of_Z 0) = false.
Proof.
  assert (T : target one_percent (picture 10 10) = (of_Z 0, of_Z 0))
    by (vm_compute; reflexivity).
  do 3 (split; [reflexivity|]). split; [exact T|].
  split; [|split; [|split; [vm_compute; reflexivity | reflexivity]]];
    rewrite <- T;
    apply (resize_sizes _ one_percent dom0 (picture 10 10) blank_canvas
             eq_refl eq_refl).
Qed.

(** ** Edits of the size fields *)

Lemma edit_frame (st : State) (e : Edit) :
  image (edit st e) = image st
  /\ keepAspect (edit st e) = keepAspect st
  /\ usePercent (edit st e) = usePercent st.
Proof.
  destruct e; unfold edit, handleWidthChange, handleHeightChange;
    destruct (keepAspect st) eqn:K, (image st) eqn:I; cbn;
    repeat split; assumption.
Qed.

Lemma edits_frame (es : list Edit) (st : State) :
  image (edits st es) = image st
  /\ keepAspect (edits st es) = keepAspect st
  /\ usePercent (edits st es) = usePercent st.
Proof.
  revert st. induction es as [|e es IH]; intros st; [repeat split|].
  cbn [edits fold_left]. fold (edits (edit st e) es).
  destruct (IH (edit st e)) as (A & B & C).
  destruct (edit_frame st e) as (A' & B' & C').
  rewrite A, B, C. repeat split; assumption.
Qed.

Lemma edits_snoc (st : State) (es : list Edit) (e : Edit) :
  edits st (es ++ [e]) = edit (edits st es) e.
Proof. unfold edits. rewrite fold_left_app. reflexivity. Qed.

(** C2, as the code has it.  With keep-aspect on and percent off the pipeline
    takes the stored width and derives the height as [round(width / aspect)].
    After any edits ending in a width edit, the width is the edited value and
    the height is derived from it.  After any edits ending in a height edit
    to [n], the stored height is [n] and the stored width
    [round(n * aspect)], and the pipeline works at that width and the height
    derived back from it. *)
Theorem width_is_authoritative
  (toBlob : Canvas -> string -> num -> option Blob)
  (st : State) (d : Dom) (i : Image) (c : Canvas) (es : list Edit) :
  image st = Some i -> canvasRef d = Some c ->
  keepAspect st = true -> usePercent st = false ->
  let aspect := div (of_N (naturalWidth i)) (of_N (naturalHeight i)) in
  (forall v,
      let n := or_zero (Number v) in
      pipeline_size toBlob (edits st (es ++ [EditWidth v])) d
        (n, Math_round (div n aspect)))
  /\ (forall v,
        let n := or_zero (Number v) in
        let w := Math_round (mul n aspect) in
        height (edits st (es ++ [EditHeight v])) = n
        /\ width (edits st (es ++ [EditHeight v])) = w
        /\ pipeline_size toBlob (edits st (es ++ [EditHeight v])) d
             (w, Math_round (div w aspect))).
Proof.
  intros Hi Hc Hk Hp aspect.
  destruct (edits_frame es st) as (A & B & C).
  rewrite Hi in A. rewrite Hk in B. rewrite Hp in C.
  split; intros v n; [|intros w]; rewrite edits_snoc.
  - replace (n, _) with (target (edit (edits st es) (EditWidth v)) i).
    + eapply resize_sizes; [|eassumption].
      rewrite (proj1 (edit_frame _ _)). exact A.
    + unfold target, edit, handleWidthChange. rewrite A, B.
      cbn. rewrite B, C. reflexivity.
  - assert (E : edit (edits st es) (EditHeight v)
                = commit (edits st es) [setHeight n; setWidth w]).
    { unfold edit, handleHeightChange. rewrite A, B. reflexivity. }
    rewrite E. split; [reflexivity|]. split; [reflexivity|].
    replace (w, _) with (target (commit (edits st es) [setHeight n; setWidth w]) i).
    + eapply resize_sizes; [|eassumption]. exact A.
    + unfold target. cbn. rewrite B, C. reflexivity.
Qed.

(** ** Sources without area *)

Lemma zero_over (b : Q) : Qsign b = Gt -> div (Fin 0) (Fin b) = Fin 0.
Proof.
  intros S. unfold div. rewrite S. apply rnd_zero.
  unfold Qdiv. rewrite (clamp_zero 0) by reflexivity. apply Qmult_0_l.
Qed.

Lemma zero_times (f : Q) : mul (Fin 0) (Fin f) = Fin 0.
Proof.
  rewrite mul_Fin. apply rnd_zero.
  rewrite (clamp_zero 0) by reflexivity. apply Qmult_0_l.
Qed.

(** [percent / 100] is finite for every finite percent. *)
Lemma factor_finite (p : Q) : exists f, div (Fin p) (of_Z 100) = Fin f.
Proof.
  unfold of_Z. rewrite div_Fin by (intros H; discriminate H).
  assert (C : (clamp (inject_Z 100) == 100)%Q)
    by (apply clamp_small; pow2_eval; unfold Qle; simpl; lia).
  destruct (clamp_bounds p) as [L U]. pose proof max_value_pos as P.
  apply rnd_finite; rewrite C.
  - apply Qle_shift_div_l; lra.
  - apply Qle_shift_div_r; lra.
Qed.

(** C3, as the code has it.  For an image whose natural width or height is 0
    the pipeline raises nothing: it resolves.  With keep-aspect (percent off)
    the width is the stored width, and the height is [NaN] when both natural
    dimensions are 0; for natural width 0 alone and a finite stored width it
    is [NaN], [Infinity] or [-Infinity] as that width is zero, positive or
    negative; for natural height 0 alone and a finite stored width it is 0.
    In percent mode with a finite percent, a natural dimension of 0 gives a
    target dimension of 0. *)
Theorem degenerate_source
  (toBlob : Canvas -> string -> num -> option Blob)
  (st : State) (d : Dom) (i : Image) (c : Canvas) :
  image st = Some i -> canvasRef d = Some c ->
  (naturalWidth i = 0 \/ naturalHeight i = 0)%N ->
  (exists v, fst (resizeToBlobUrl toBlob st d) = Fulfilled v)
  /\ exists w h,
       pipeline_size toBlob st d (w, h)
       /\ (usePercent st = false -> keepAspect st = true ->
             w = width st
             /\ (naturalWidth i = 0%N -> naturalHeight i = 0%N -> h = NaN)
             /\ (naturalWidth i = 0%N -> (0 < naturalHeight i)%N ->
                   forall x, width st = Fin x ->
                     h = match Qsign x with
                         | Eq => NaN | Gt => PInf | Lt => NInf
                         end)
             /\ ((0 < naturalWidth i)%N -> naturalHeight i = 0%N ->
                   forall x, width st = Fin x -> h = of_Z 0))
       /\ (usePercent st = true -> forall p, percent st = Fin p ->
             (naturalWidth i = 0%N -> w = of_Z 0)
             /\ (naturalHeight i = 0%N -> h = of_Z 0)).
Proof.
  intros Hi Hc _. split; [apply resize_resolves|].
  exists (fst (target st i)), (snd (target st i)).
  rewrite <- surjective_pairing.
  split; [eapply resize_sizes; eassumption|].
  split.
  - intros Hp Hk. rewrite (target_locked st i Hp Hk). cbn [fst snd].
    split; [reflexivity|]. split; [|split].
    + intros W H. rewrite W, H.
      change (div (of_N 0) (of_N 0)) with NaN.
      destruct (width st); reflexivity.
    + intros W H x Ex. rewrite W, Ex.
      change (of_N 0) with (Fin 0). unfold of_N, of_Z.
      rewrite (zero_over _ (Qsign_of_N_pos _ H)).
      unfold div. change (Qsign 0) with Eq.
      destruct (Qsign x); reflexivity.
    + intros W H x Ex. rewrite H, Ex. unfold of_N at 1. unfold of_Z.
      change (of_N 0) with (Fin 0). unfold div at 2.
      change (Qsign 0) with Eq. rewrite (Qsign_of_N_pos _ W). reflexivity.
  - intros Hp p Ep. rewrite (target_percent st i Hp), Ep. cbn [fst snd].
    destruct (factor_finite p) as [f ->].
    split; intros Z; rewrite Z; change (of_N 0) with (Fin 0);
      rewrite zero_times; reflexivity.
Qed.

(** ** Encoder without data, and nothing to resize *)

(** C5, as the code has it.  When the encoder has no data for the canvas the
    pipeline drew, [resizeToBlobUrl] resolves with [null], and both click
    handlers return at once: nothing is queued, nothing happens on the page
    and no object URL is made.  No error is raised. *)
Theorem encoder_null_resolves_null
  (toBlob : Canvas -> string -> num -> option Blob)
  (st : State) (d : Dom) (i : Image) (c : Canvas) :
  image st = Some i -> canvasRef d = Some c ->
  toBlob (drawn i (fst (target st i)) (snd (target st i)))
         (format st) (quality st) = None ->
  let d1 := set_canvas (drawn i (fst (target st i)) (snd (target st i))) d in
  resizeToBlobUrl toBlob st d = (Fulfilled None, d1)
  /\ handleResizeClick toBlob st d = ([], d1)
  /\ handleDownload toBlob st d = ([], d1)
  /\ page d1 = page d
  /\ next_url d1 = next_url d.
Proof.
  intros Hi Hc He d1.
  assert (R : resizeToBlobUrl toBlob st d = (Fulfilled None, d1)).
  { unfold resizeToBlobUrl. rewrite Hi, Hc.
    destruct (target st i) as [w h]. cbn [fst snd] in *.
    rewrite He. reflexivity. }
  unfold handleResizeClick, handleDownload. rewrite R.
  repeat split; reflexivity.
Qed.

(** C8.  Without an image, or without a canvas, [resizeToBlobUrl] resolves
    with [null] and leaves the page as it is, and so do the preview and the
    download handler, which queue no state change. *)
Theorem nothing_to_resize
  (toBlob : Canvas -> string -> num -> option Blob)
  (st : State) (d : Dom) :
  image st = None \/ canvasRef d = None ->
  resizeToBlobUrl toBlob st d = (Fulfilled None, d)
  /\ handleResizeClick toBlob st d = ([], d)
  /\ handleDownload toBlob st d = ([], d)
  /\ commit st (fst (handleResizeClick toBlob st d)) = st
  /\ commit st (fst (handleDownload toBlob st d)) = st.
Proof.
  intros H.
  assert (R : resizeToBlobUrl toBlob st d = (Fulfilled None, d)).
  { unfold resizeToBlobUrl. destruct H as [H | H]; rewrite H.
    - reflexivity.
    - destruct (image st); reflexivity. }
  unfold handleResizeClick, handleDownload. rewrite R.
  repeat split; reflexivity.
Qed.

(** ** Files *)

(** C6.  A file whose type does not start with [image/] is answered with an
    alert and nothing else: no setter is queued, so the file, the image, the
    preview and every other state cell stay as they are and the [file] effect
    that decodes does not run; the canvas is not touched and no object URL is
    made. *)
Theorem non_image_rejected (f : File) (st : State) (d : Dom) :
  String.prefix "image/" (f_type f) = false ->
  let (queue, d') := handleFile (Some f) st d in
  queue = []
  /\ commit st queue = st
  /\ page d' = page d ++ [Alert "Please upload an image file."]
  /\ canvasRef d' = canvasRef d
  /\ next_url d' = next_url d.
Proof.
  intros H. unfold handleFile. rewrite H. cbn.
  repeat split; reflexivity.
Qed.

(** ** The download name *)


(** ** Clear *)

(** C9.  Clear sets [file], [image] and [previewUrl] to [null] and leaves the
    seven other state cells as they were. *)
Theorem clear_frame (st : State) :
  let st' := commit st (handleClear st) in
  file st' = None /\ image st' = None /\ previewUrl st' = None
  /\ width st' = width st /\ height st' = height st
  /\ percent st' = percent st /\ usePercent st' = usePercent st
  /\ keepAspect st' = keepAspect st /\ quality st' = quality st
  /\ format st' = format st.
Proof. repeat split; reflexivity. Qed.

(** ** Empty and non-numeric input *)

Lemma or_zero_falsy (v : string) :
  v = EmptyString \/ Number v = NaN -> or_zero (Number v) = Fin 0.
Proof. intros [-> | E]; [|rewrite E]; reflexivity. Qed.

(** C10.  An empty or non-numeric value of the width field stores width 0,
    and with keep-aspect on and an image of positive natural dimensions
    loaded it stores the derived height [round(0 / aspect) = 0] too; the same
    holds for the height field with the roles exchanged. *)
Theorem empty_input_stores_zero (v : string) (st : State) :
  v = EmptyString \/ Number v = NaN ->
  width (commit st (handleWidthChange v st)) = of_Z 0
  /\ height (commit st (handleHeightChange v st)) = of_Z 0
  /\ (forall i, keepAspect st = true -> image st = Some i ->
        (0 < naturalWidth i)%N -> (0 < naturalHeight i)%N ->
        height (commit st (handleWidthChange v st)) = of_Z 0
        /\ width (commit st (handleHeightChange v st)) = of_Z 0).
Proof.
  intros Hv. apply or_zero_falsy in Hv.
  unfold handleWidthChange, handleHeightChange. rewrite Hv.
  split; [|split].
  - destruct (keepAspect st), (image st); reflexivity.
  - destruct (keepAspect st), (image st); reflexivity.
  - intros i Hk Hi W H. rewrite Hk, Hi.
    destruct (aspect_pos i W H) as (a & Ea & Sa). rewrite Ea.
    cbn [commit fold_left apply_setter height width].
    rewrite (zero_over a Sa), zero_times. split; reflexivity.
Qed.

(** ** Instances *)

Lemma width_is_authoritative_witness :
  image (loaded (picture 800 600)) = Some (picture 800 600)
  /\ canvasRef dom0 = Some blank_canvas
  /\ keepAspect (loaded (picture 800 600)) = true
  /\ usePercent (loaded (picture 800 600)) = false
  /\ pipeline_size encoder_ok
       (edits (loaded (picture 800 600)) ([EditHeight "100"] ++ [EditWidth "400"]))
       dom0 (of_Z 400, of_Z 300)
  /\ pipeline_size encoder_ok
       (edits (loaded (picture 800 600)) ([EditHeight "100"] ++ [EditHeight "300"]))
       dom0 (of_Z 400, of_Z 300).
Proof.
  destruct (width_is_authoritative encoder_ok (loaded (picture 800 600)) dom0
              (picture 800 600) blank_canvas [EditHeight "100"]
              eq_refl eq_refl eq_refl eq_refl) as [W H].
  do 4 (split; [reflexivity|]). split.
  - exact (W "400"%string).
  - exact (proj2 (proj2 (H "300"%string))).
Defined.

(** C2 as stated fails: on a 100 x 1000 image with keep-aspect on, a height
    edit to 14 stores height 14 and width 1, and the pipeline works at
    1 x 10, not at a height of 14.  On a 700 x 1000 image a height edit to
    45 stores width 31, and the pipeline works at 31 x 44. *)
Lemma height_edit_counterexample :
  image height_14 = Some tall
  /\ keepAspect height_14 = true
  /\ usePercent height_14 = false
  /\ or_zero (Number "14") = of_Z 14
  /\ height height_14 = of_Z 14
  /\ width height_14 = of_Z 1
  /\ pipeline_size encoder_ok height_14 dom0 (of_Z 1, of_Z 10)
  /\ output_dims encoder_ok height_14 dom0 = Some (of_Z 1, of_Z 10)
  /\ of_Z 10 <> of_Z 14
  /\ height height_45 = of_Z 45
  /\ width height_45 = of_Z 31
  /\ pipeline_size encoder_ok height_45 dom0 (of_Z 31, of_Z 44).
Proof.
  assert (T : target height_14 tall = (of_Z 1, of_Z 10))
    by (vm_compute; reflexivity).
  assert (T' : target height_45 (picture 700 1000) = (of_Z 31, of_Z 44))
    by (vm_compute; reflexivity).
  do 3 (split; [reflexivity|]).
  do 3 (split; [vm_compute; reflexivity|]).
  split; [|split; [vm_compute; reflexivity|]].
  - rewrite <- T.
    apply (resize_sizes _ height_14 dom0 tall blank_canvas eq_refl eq_refl).
  - split; [discriminate|]. do 2 (split; [vm_compute; reflexivity|]).
    rewrite <- T'.
    apply (resize_sizes _ height_45 dom0 (picture 700 1000) blank_canvas
             eq_refl eq_refl).
Qed.

Lemma degenerate_source_witness :
  image widthless = Some (picture 0 600)
  /\ canvasRef dom0 = Some blank_canvas
  /\ (naturalWidth (picture 0 600) = 0 \/ naturalHeight (picture 0 600) = 0)%N
  /\ (exists v, fst (resizeToBlobUrl encoder_null widthless dom0) = Fulfilled v)
  /\ exists w h,
       pipeline_size encoder_null widthless dom0 (w, h)
       /\ w = of_Z 800 /\ h = PInf.
Proof.
  destruct (degenerate_source encoder_null widthless dom0 (picture 0 600)
              blank_canvas eq_refl eq_refl (or_introl eq_refl))
    as (R & w & h & P & A & _).
  split; [reflexivity|]. split; [reflexivity|].
  split; [left; reflexivity|]. split; [exact R|].
  exists w, h. split; [exact P|].
  destruct (A eq_refl eq_refl) as (Ew & _ & Eh & _).
  split; [exact Ew|].
  exact (Eh eq_refl eq_refl _ eq_refl).
Defined.

(** C3 as stated fails: an image without natural size loads, and the pipeline
    resolves, having worked at a height of [NaN]; with natural width 0 and
    the width field at 800 it works at a height of [Infinity], which the
    height field holds too. *)
Lemma degenerate_source_counterexample :
  image sizeless = Some (picture 0 0)
  /\ fst (resizeToBlobUrl encoder_null sizeless dom0) = Fulfilled None
  /\ pipeline_size encoder_null sizeless dom0 (of_Z 0, NaN)
  /\ image widthless = Some (picture 0 600)
  /\ height widthless = PInf
  /\ fst (resizeToBlobUrl encoder_null widthless dom0) = Fulfilled None
  /\ pipeline_size encoder_null widthless dom0 (of_Z 800, PInf).
Proof.
  repeat (split; [reflexivity|]).
  split; [|repeat (split; [reflexivity|])].
  - apply (resize_sizes _ sizeless dom0 (picture 0 0) blank_canvas
             eq_refl eq_refl).
  - apply (resize_sizes _ widthless dom0 (picture 0 600) blank_canvas
             eq_refl eq_refl).
Qed.

Lemma encoder_null_resolves_null_witness :
  image (loaded (picture 800 600)) = Some (picture 800 600)
  /\ canvasRef dom0 = Some blank_canvas
  /\ encoder_null (drawn (picture 800 600) (of_Z 800) (of_Z 600))
       "image/jpeg" (quality initial) = None
  /\ fst (resizeToBlobUrl encoder_null (loaded (picture 800 600)) dom0)
     = Fulfilled None
  /\ page (snd (handleResizeClick encoder_null (loaded (picture 800 600)) dom0))
     = []
  /\ page (snd (handleDownload encoder_null (loaded (picture 800 600)) dom0))
     = [].
Proof.
  destruct (encoder_null_resolves_null encoder_null (loaded (picture 800 600))
              dom0 (picture 800 600) blank_canvas eq_refl eq_refl eq_refl)
    as (R & P & D & _).
  do 3 (split; [reflexivity|]).
  rewrite R, P, D. repeat split; reflexivity.
Defined.

(** C5 as stated fails: with an image loaded and an encoder without data the
    promise is fulfilled with [null], not rejected, exactly as when nothing
    is loaded, and neither click handler shows anything on the page. *)
Lemma encode_error_counterexample :
  image (loaded (picture 800 600)) = Some (picture 800 600)
  /\ fst (resizeToBlobUrl encoder_null (loaded (picture 800 600)) dom0)
     = Fulfilled None
  /\ (forall reason,
        fst (resizeToBlobUrl encoder_null (loaded (picture 800 600)) dom0)
        <> Rejected reason)
  /\ fst (resizeToBlobUrl encoder_null initial dom0) = Fulfilled None
  /\ page (snd (handleResizeClick encoder_null (loaded (picture 800 600)) dom0))
     = []
  /\ page (snd (handleDownload encoder_null (loaded (picture 800 600)) dom0))
     = [].
Proof.
  repeat (split; [reflexivity|]).
  split; [intros reason; discriminate|].
  repeat split; reflexivity.
Qed.

Lemma nothing_to_resize_witness :
  (image initial = None \/ canvasRef dom0 = None)
  /\ resizeToBlobUrl encoder_ok initial dom0 = (Fulfilled None, dom0)
  /\ handleResizeClick encoder_ok initial dom0 = ([], dom0)
  /\ handleDownload encoder_ok initial dom0 = ([], dom0).
Proof.
  destruct (nothing_to_resize encoder_ok initial dom0 (or_introl eq_refl))
    as (R & P & D & _).
  split; [left; reflexivity|]. repeat split; assumption.
Defined.

Lemma non_image_rejected_witness :
  String.prefix "image/" (f_type text_file) = false
  /\ handleFile (Some text_file) initial dom0
     = ([], emit (Alert "Please upload an image file.") dom0).
Proof.
  split; [reflexivity|].
  pose proof (non_image_rejected text_file initial dom0 eq_refl) as H.
  destruct (handleFile (Some text_file) initial dom0) as [q d'] eqn:E.
  inversion E; subst. reflexivity.
Defined.


(** A width of [1e21] typed with keep-aspect off: the name has the width in
    exponent notation, as the template literal prints it. *)
Lemma download_name_exponent :
  width (edits unlocked [EditWidth "1e21"]) = of_Z (10 ^ 21)
  /\ page (snd (handleDownload encoder_ok (edits unlocked [EditWidth "1e21"])
                  dom0))
     = [AnchorClick 1%nat "resized-1e+21x600.jpg";
        SetTimeout 2000 (RevokeObjectURL 1%nat)].
Proof. split; vm_compute; reflexivity. Qed.

Lemma empty_input_stores_zero_witness :
  ("abc"%string = EmptyString \/ Number "abc" = NaN)
  /\ width (commit (loaded (picture 800 600))
              (handleWidthChange "abc" (loaded (picture 800 600)))) = of_Z 0
  /\ height (commit (loaded (picture 800 600))
               (handleWidthChange "abc" (loaded (picture 800 600)))) = of_Z 0.
Proof.
  destruct (empty_input_stores_zero "abc" (loaded (picture 800 600))
              (or_intror eq_refl)) as (W & _ & K).
  split; [right; reflexivity|]. split; [exact W|].
  exact (proj1 (K (picture 800 600) eq_refl eq_refl eq_refl eq_refl)).
Defined.

(** ** Further properties: the size of the output *)

Lemma full_factor : div (of_Z 100) (of_Z 100) = Fin 1.
Proof. vm_compute. reflexivity. Qed.

Lemma times_one (n : N) :
  Z.of_N n < 2 ^ 32 -> mul (of_N n) (Fin 1) = of_N n.
Proof.
  intros H. unfold of_N, of_Z. rewrite mul_Fin.
  rewrite (rnd_comp _ (inject_Z (Z.of_N n))).
  - apply rnd_Z. assert (2 ^ 32 <= 2 ^ 53) by (apply Z.leb_le; reflexivity).
    lia.
  - rewrite (clamp_of_N n H).
    rewrite (clamp_small 1) by (pow2_eval; lra). ring.
Qed.

(** The height derived from a width that is an exact multiple of the aspect
    ratio. *)
Lemma round_over_aspect (i : Image) (x m : Z) :
  (0 < naturalWidth i)%N -> (0 < naturalHeight i)%N ->
  1 <= x <= 2 ^ 53 -> 0 <= m <= 2 ^ 49 ->
  x * Z.of_N (naturalHeight i) = m * Z.of_N (naturalWidth i) ->
  Math_round (div (of_Z x)
                  (div (of_N (naturalWidth i)) (of_N (naturalHeight i))))
  = of_Z m.
Proof.
  intros W H Hx Hm Exm.
  destruct (aspect_bounds i W H) as (a & E & La & Ua & A1 & A2 & _).
  cbv zeta in *.
  destruct (of_N_range _ W (naturalWidth_lt i)) as [W1 W2].
  destruct (of_N_range _ H (naturalHeight_lt i)) as [H1 H2].
  set (nw := Z.of_N (naturalWidth i)) in *.
  set (nh := Z.of_N (naturalHeight i)) in *.
  set (A := (inject_Z nw / inject_Z nh)%Q) in *.
  assert (X1 : (1 <= inject_Z x)%Q)
    by (change 1%Q with (inject_Z 1); rewrite <- Zle_Qle; lia).
  assert (X2 : (inject_Z x <= pow2 64)%Q).
  { rewrite (pow2_Z 64) by discriminate. rewrite <- Zle_Qle.
    assert (2 ^ 53 <= 2 ^ 64) by (apply Z.leb_le; reflexivity). lia. }
  destruct (over_aspect_rel (inject_Z x) A a A1 A2 La Ua X1 X2)
    as (c & Ec & Lc & Uc).
  rewrite E. unfold of_Z at 1. rewrite Ec.
  assert (Em : (inject_Z x / A == inject_Z m)%Q).
  { unfold A. assert (Q : (inject_Z (x * nh) == inject_Z (m * nw))%Q)
      by (rewrite Exm; reflexivity).
    rewrite !inject_Z_mult in Q.
    setoid_replace (inject_Z x / (inject_Z nw / inject_Z nh))%Q
      with (inject_Z x * inject_Z nh / inject_Z nw)%Q by (field; split; lra).
    rewrite Q. field. lra. }
  rewrite Em in Lc, Uc.
  assert (M1 : (0 <= inject_Z m)%Q) by (rewrite <- (Zle_Qle 0); lia).
  assert (M2 : (inject_Z m <= inject_Z (2 ^ 49))%Q)
    by (rewrite <- Zle_Qle; lia).
  change (inject_Z (2 ^ 49)) with 562949953421312%Q in M2.
  pow2_eval. apply round_unique; lra.
Qed.

Lemma onload_state (st0 st : State) (i : Image) :
  usePercent st0 = false ->
  commit st (img_onload st0 i)
  = commit st [setImage (Some i); setWidth (of_N (naturalWidth i));
               setHeight (of_N (naturalHeight i))].
Proof. intros Hp. unfold img_onload. rewrite Hp. reflexivity. Qed.

(** X1.  [img.onload] belongs to the render [st0] in which the file was
    chosen and runs on the state [st] of the load.  When percent mode was
    off in [st0], an image of positive natural dimensions gets its natural
    size into the width and the height field, and with percent mode off
    then, keep-aspect on or off, it is resized to exactly that size.  When
    percent mode was on in [st0] the two fields stay as they are. *)
Theorem fresh_load_identity
  (toBlob : Canvas -> string -> num -> option Blob)
  (st0 st : State) (d : Dom) (i : Image) (c : Canvas) :
  canvasRef d = Some c ->
  (0 < naturalWidth i)%N -> (0 < naturalHeight i)%N ->
  let st' := commit st (img_onload st0 i) in
  image st' = Some i
  /\ (usePercent st0 = false ->
      width st' = of_N (naturalWidth i)
      /\ height st' = of_N (naturalHeight i)
      /\ (usePercent st = false ->
          pipeline_size toBlob st' d
            (of_N (naturalWidth i), of_N (naturalHeight i))))
  /\ (usePercent st0 = true ->
      width st' = width st /\ height st' = height st).
Proof.
  intros Hc W H st'. split; [|split].
  - unfold st', img_onload. destruct (usePercent st0); reflexivity.
  - intros Hp0. unfold st'. rewrite (onload_state st0 st i Hp0).
    split; [reflexivity|]. split; [reflexivity|]. intros Hp.
    set (s := commit st _).
    replace (of_N (naturalWidth i), of_N (naturalHeight i)) with (target s i);
      [apply (resize_sizes toBlob s d i c); [reflexivity | exact Hc]|].
    destruct (keepAspect st) eqn:Hk.
    + rewrite (target_locked s i Hp Hk).
      change (width s) with (of_N (naturalWidth i)). f_equal.
      pose proof (naturalWidth_lt i). pose proof (naturalHeight_lt i).
      assert (2 ^ 32 <= 2 ^ 49) by (apply Z.leb_le; reflexivity).
      assert (2 ^ 32 <= 2 ^ 53) by (apply Z.leb_le; reflexivity).
      apply round_over_aspect; try assumption; lia.
    + rewrite (target_free s i Hp Hk). reflexivity.
  - intros Hp0. unfold st', img_onload. rewrite Hp0. split; reflexivity.
Qed.

(** X2.  At 100 percent the output has the natural size, for every image,
    one without area included. *)
Theorem percent_hundred_identity
  (toBlob : Canvas -> string -> num -> option Blob)
  (st : State) (d : Dom) (i : Image) (c : Canvas) :
  image st = Some i -> canvasRef d = Some c ->
  usePercent st = true -> percent st = of_Z 100 ->
  pipeline_size toBlob st d (of_N (naturalWidth i), of_N (naturalHeight i)).
Proof.
  intros Hi Hc Hp Ep.
  replace (_, _) with (target st i); [eapply resize_sizes; eassumption|].
  rewrite (target_percent st i Hp), Ep, full_factor.
  rewrite (times_one _ (naturalWidth_lt i)), (times_one _ (naturalHeight_lt i)).
  unfold of_N. rewrite !round_of_Z. reflexivity.
Qed.

(** X3.  With keep-aspect on and percent off, a stored width of [k] times the
    natural width gives an output of exactly [k] times the natural size, for
    every multiple [k] from 0 to [2 ^ 17]. *)
Theorem integer_multiple_keeps_aspect
  (toBlob : Canvas -> string -> num -> option Blob)
  (st : State) (d : Dom) (i : Image) (c : Canvas) (k : Z) :
  image st = Some i -> canvasRef d = Some c ->
  usePercent st = false -> keepAspect st = true ->
  (0 < naturalWidth i)%N -> (0 < naturalHeight i)%N ->
  0 <= k <= 2 ^ 17 ->
  width st = of_Z (k * Z.of_N (naturalWidth i)) ->
  pipeline_size toBlob st d
    (of_Z (k * Z.of_N (naturalWidth i)), of_Z (k * Z.of_N (naturalHeight i))).
Proof.
  intros Hi Hc Hp Hk W H Bk Ex.
  replace (_, _) with (target st i); [eapply resize_sizes; eassumption|].
  rewrite (target_locked st i Hp Hk), Ex. f_equal.
  pose proof (naturalWidth_lt i) as BW. pose proof (naturalHeight_lt i) as BH.
  assert (P17 : 2 ^ 17 * 2 ^ 32 = 2 ^ 49) by reflexivity.
  assert (P53 : 2 ^ 49 <= 2 ^ 53) by (apply Z.leb_le; reflexivity).
  destruct (Z.eq_dec k 0) as [-> | K0].
  - destruct (aspect_pos i W H) as (a & -> & Sa).
    change (of_Z (0 * Z.of_N (naturalWidth i))) with (Fin 0).
    rewrite (zero_over a Sa). reflexivity.
  - apply round_over_aspect; try assumption; nia.
Qed.

(** X4.  In percent mode with a percent [p] in the range of the slider both
    output dimensions are integers, each within a half and a hundred
    thousandth of the exact scaled value [natural * p / 100]. *)
Theorem percent_within_half
  (toBlob : Canvas -> string -> num -> option Blob)
  (st : State) (d : Dom) (i : Image) (c : Canvas) (p : Q) :
  image st = Some i -> canvasRef d = Some c ->
  usePercent st = true -> percent st = Fin p ->
  (1 <= p)%Q -> (p <= 200)%Q ->
  let nw := inject_Z (Z.of_N (naturalWidth i)) in
  let nh := inject_Z (Z.of_N (naturalHeight i)) in
  let slack := ((1 # 2) + (1 # 100000))%Q in
  exists w h : Z,
    pipeline_size toBlob st d (of_Z w, of_Z h)
    /\ (nw * p / 100 - slack < inject_Z w <= nw * p / 100 + slack)%Q
    /\ (nh * p / 100 - slack < inject_Z h <= nh * p / 100 + slack)%Q.
Proof.
  intros Hi Hc Hp Ep L U nw nh slack.
  assert (B : forall n : N, Z.of_N n < 2 ^ 32 ->
            exists z, Math_round (mul (of_N n) (div (Fin p) (of_Z 100)))
                      = of_Z z
                      /\ (inject_Z (Z.of_N n) * p / 100 - slack < inject_Z z)%Q
                      /\ (inject_Z z
                          <= inject_Z (Z.of_N n) * p / 100 + slack)%Q).
  { intros n Hn.
    destruct (percent_rel n p Hn L U) as (q & E & Lq & Uq). cbv zeta in *.
    destruct (round_bounds q) as (z & Ez & Lz & Uz).
    exists z. rewrite E. split; [exact Ez|].
    pose proof (of_N_nonneg n) as P0.
    assert (P1 : (inject_Z (Z.of_N n) <= inject_Z (2 ^ 32))%Q)
      by (rewrite <- Zle_Qle; lia).
    change (inject_Z (2 ^ 32)) with 4294967296%Q in P1.
    set (m := inject_Z (Z.of_N n)) in *.
    change (m * p / 100)%Q with (m * p * (1 # 100))%Q.
    assert (M1 : (m * 1 <= m * p)%Q) by (apply scale_mono; lra).
    assert (M2 : (m * p <= m * 200)%Q) by (apply scale_mono; lra).
    set (mp := (m * p)%Q) in *. unfold slack. pow2_eval. split; lra. }
  destruct (B _ (naturalWidth_lt i)) as (w & Ew & Bw).
  destruct (B _ (naturalHeight_lt i)) as (h & Eh & Bh).
  exists w, h. split; [|split; assumption].
  replace (_, _) with (target st i); [eapply resize_sizes; eassumption|].
  rewrite (target_percent st i Hp), Ep, Ew, Eh. reflexivity.
Qed.

(** The scaled dimension grows with the percent. *)
Lemma scaled_mono (n : N) (p1 p2 : Q) :
  (p1 <= p2)%Q ->
  num_le (mul (of_N n) (div (Fin p1) (of_Z 100)))
         (mul (of_N n) (div (Fin p2) (of_Z 100))).
Proof.
  intros Le.
  assert (C : (clamp (inject_Z 100) == 100)%Q)
    by (apply clamp_small; pow2_eval; unfold Qle; simpl; lia).
  assert (M : num_le (div (Fin p1) (of_Z 100)) (div (Fin p2) (of_Z 100))).
  { unfold of_Z. rewrite !div_Fin by (intros H; discriminate H).
    apply rnd_mono. rewrite C. pose proof (clamp_mono _ _ Le).
    change (clamp p1 / 100)%Q with (clamp p1 * (1 # 100))%Q.
    change (clamp p2 / 100)%Q with (clamp p2 * (1 # 100))%Q. lra. }
  destruct (factor_finite p1) as [f1 E1]. destruct (factor_finite p2) as [f2 E2].
  rewrite E1, E2 in *. unfold num_le in M. unfold of_N, of_Z.
  rewrite !mul_Fin. apply rnd_mono. apply scale_mono.
  - apply clamp_nonneg, of_N_nonneg.
  - apply clamp_mono, M.
Qed.

Lemma round_num_le (x y : num) (a b : Z) :
  num_le x y -> Math_round x = of_Z a -> Math_round y = of_Z b -> a <= b.
Proof.
  intros M Ea Eb. destruct x as [p | | |], y as [q | | |];
    try discriminate Ea; try discriminate Eb.
  exact (round_mono p q a b M Ea Eb).
Qed.

(** X5.  In percent mode a larger finite percent never gives a smaller
    output: both dimensions grow with the percent. *)
Theorem percent_monotone
  (toBlob : Canvas -> string -> num -> option Blob)
  (st1 st2 : State) (d : Dom) (i : Image) (c : Canvas) (p1 p2 : Q)
  (w1 h1 w2 h2 : Z) :
  image st1 = Some i -> image st2 = Some i -> canvasRef d = Some c ->
  usePercent st1 = true -> usePercent st2 = true ->
  percent st1 = Fin p1 -> percent st2 = Fin p2 -> (p1 <= p2)%Q ->
  pipeline_size toBlob st1 d (of_Z w1, of_Z h1) ->
  pipeline_size toBlob st2 d (of_Z w2, of_Z h2) ->
  w1 <= w2 /\ h1 <= h2.
Proof.
  intros Hi1 Hi2 Hc Hp1 Hp2 E1 E2 Le P1 P2.
  pose proof (pipeline_size_unique _ _ _ _ _ P1
                (resize_sizes toBlob st1 d i c Hi1 Hc)) as T1.
  pose proof (pipeline_size_unique _ _ _ _ _ P2
                (resize_sizes toBlob st2 d i c Hi2 Hc)) as T2.
  rewrite (target_percent st1 i Hp1), E1 in T1.
  rewrite (target_percent st2 i Hp2), E2 in T2.
  apply pair_equal_spec in T1, T2.
  destruct T1 as [Tw1 Th1]. destruct T2 as [Tw2 Th2].
  split; eapply round_num_le; try (symmetry; eassumption);
    apply scaled_mono, Le.
Qed.

(** X6.  For a percent within the range of the slider, 1 to 200, each output
    dimension lies between 0 and twice the natural dimension. *)
Theorem slider_range_bounds
  (toBlob : Canvas -> string -> num -> option Blob)
  (st : State) (d : Dom) (i : Image) (c : Canvas) (p : Q) :
  image st = Some i -> canvasRef d = Some c ->
  usePercent st = true -> percent st = Fin p ->
  (1 <= p)%Q -> (p <= 200)%Q ->
  exists w h : Z,
    pipeline_size toBlob st d (of_Z w, of_Z h)
    /\ 0 <= w <= 2 * Z.of_N (naturalWidth i)
    /\ 0 <= h <= 2 * Z.of_N (naturalHeight i).
Proof.
  intros Hi Hc Hp Ep L U.
  assert (B : forall n : N, Z.of_N n < 2 ^ 32 ->
            exists z, Math_round (mul (of_N n) (div (Fin p) (of_Z 100)))
                      = of_Z z /\ 0 <= z <= 2 * Z.of_N n).
  { intros n Hn.
    destruct (percent_rel n p Hn L U) as (q & E & Lq & Uq). cbv zeta in *.
    rewrite E. exists (Qfloor (q + (1 # 2))). split; [reflexivity|].
    pose proof (of_N_nonneg n) as P0.
    assert (P1 : (inject_Z (Z.of_N n) <= inject_Z (2 ^ 32))%Q)
      by (rewrite <- Zle_Qle; lia).
    change (inject_Z (2 ^ 32)) with 4294967296%Q in P1.
    set (m := inject_Z (Z.of_N n)) in *.
    assert (M1 : (m * 1 <= m * p)%Q) by (apply scale_mono; lra).
    assert (M2 : (m * p <= m * 200)%Q) by (apply scale_mono; lra).
    set (mp := (m * p)%Q) in *. pow2_eval. split.
    - rewrite <- (Qfloor_Z 0). apply Qfloor_resp_le.
      change (inject_Z 0) with 0%Q. lra.
    - apply Z.lt_succ_r. rewrite Zlt_Qlt.
      eapply Qle_lt_trans; [apply Qfloor_le|].
      unfold Z.succ. rewrite inject_Z_plus, inject_Z_mult. fold m.
      change (inject_Z 2) with 2%Q. change (inject_Z 1) with 1%Q. lra. }
  destruct (B _ (naturalWidth_lt i)) as (w & Ew & Bw).
  destruct (B _ (naturalHeight_lt i)) as (h & Eh & Bh).
  exists w, h. split; [|split; assumption].
  replace (_, _) with (target st i); [eapply resize_sizes; eassumption|].
  rewrite (target_percent st i Hp), Ep, Ew, Eh. reflexivity.
Qed.

(** X7.  With keep-aspect on, percent off and a stored width [x] from 1 to
    [2 ^ 53], the output keeps the width [x] and has an integer height
    within one half of [x * naturalHeight / naturalWidth], up to a relative
    error of [2 ^ -51] of that value. *)
Theorem aspect_within_half
  (toBlob : Canvas -> string -> num -> option Blob)
  (st : State) (d : Dom) (i : Image) (c : Canvas) (x : Q) :
  image st = Some i -> canvasRef d = Some c ->
  usePercent st = false -> keepAspect st = true -> width st = Fin x ->
  (0 < naturalWidth i)%N -> (0 < naturalHeight i)%N ->
  (1 <= x)%Q -> (x <= inject_Z (2 ^ 53))%Q ->
  let nw := inject_Z (Z.of_N (naturalWidth i)) in
  let nh := inject_Z (Z.of_N (naturalHeight i)) in
  let e := (x * nh / nw)%Q in
  exists h : Z,
    pipeline_size toBlob st d (Fin x, of_Z h)
    /\ (e * (1 - pow2 (-51)) - (1 # 2) < inject_Z h)%Q
    /\ (inject_Z h <= e * (1 + pow2 (-51)) + (1 # 2))%Q.
Proof.
  intros Hi Hc Hp Hk Ex W H X1 X2 nw nh e.
  destruct (aspect_bounds i W H) as (a & E & La & Ua & A1 & A2 & _).
  cbv zeta in *. fold nw nh in La, Ua, A1, A2.
  assert (X3 : (x <= pow2 64)%Q).
  { eapply Qle_trans; [exact X2|]. rewrite (pow2_Z 64) by discriminate.
    rewrite <- Zle_Qle. apply Z.leb_le. reflexivity. }
  destruct (over_aspect_rel x (nw / nh) a A1 A2 La Ua X1 X3)
    as (q & Eq & Lq & Uq).
  destruct (round_bounds q) as (h & Eh & Lh & Uh).
  exists h. split.
  - replace (_, _) with (target st i); [eapply resize_sizes; eassumption|].
    rewrite (target_locked st i Hp Hk), Ex, E, Eq, Eh. reflexivity.
  - assert (Pw : (0 < nw)%Q) by (apply of_N_pos, W).
    assert (Ph : (0 < nh)%Q) by (apply of_N_pos, H).
    assert (Ee : (x / (nw / nh) == e)%Q) by (unfold e; field; split; lra).
    rewrite Ee in Lq, Uq. split; lra.
Qed.

(** ** Further properties: edits of the size fields *)

Lemma edit_width_state (s : State) (i : Image) (v : string) :
  keepAspect s = true -> image s = Some i ->
  edit s (EditWidth v)
  = commit s [setWidth (or_zero (Number v));
              setHeight (Math_round
                           (div (or_zero (Number v))
                                (div (of_N (naturalWidth i))
                                     (of_N (naturalHeight i)))))].
Proof.
  intros Hk Hi. unfold edit, handleWidthChange. rewrite Hk, Hi. reflexivity.
Qed.

Lemma edit_height_state (s : State) (i : Image) (v : string) :
  keepAspect s = true -> image s = Some i ->
  edit s (EditHeight v)
  = commit s [setHeight (or_zero (Number v));
              setWidth (Math_round
                          (mul (or_zero (Number v))
                               (div (of_N (naturalWidth i))
                                    (of_N (naturalHeight i)))))].
Proof.
  intros Hk Hi. unfold edit, handleHeightChange. rewrite Hk, Hi. reflexivity.
Qed.

(** For an image at least as wide as it is high, an integer height up to
    [2 ^ 17] multiplied by the aspect ratio, rounded, and divided by the
    ratio again rounds to the same height. *)
Lemma round_trip_landscape (i : Image) (z : Z) :
  (0 < naturalHeight i)%N -> (naturalHeight i <= naturalWidth i)%N ->
  0 <= z <= 2 ^ 17 ->
  Math_round
    (div (Math_round
            (mul (of_Z z)
                 (div (of_N (naturalWidth i)) (of_N (naturalHeight i)))))
         (div (of_N (naturalWidth i)) (of_N (naturalHeight i))))
  = of_Z z.
Proof.
  intros H HW Hz.
  assert (W : (0 < naturalWidth i)%N) by lia.
  destruct (aspect_bounds i W H) as (a & E & La & Ua & A1 & A2 & Ra).
  cbv zeta in *. rewrite E.
  assert (Sa : Qsign a = Gt) by (apply Qsign_Gt; pow2_eval; lra).
  destruct (Z.eq_dec z 0) as [-> | Z0].
  { change (of_Z 0) with (Fin 0). rewrite zero_times.
    change (Math_round (Fin 0)) with (Fin 0). rewrite (zero_over a Sa).
    reflexivity. }
  pose proof (naturalWidth_lt i) as BW. pose proof (naturalHeight_lt i) as BH.
  destruct (of_N_range _ W BW) as [W1 W2].
  destruct (of_N_range _ H BH) as [H1 H2].
  set (nw := Z.of_N (naturalWidth i)) in *.
  set (nh := Z.of_N (naturalHeight i)) in *.
  set (A := (inject_Z nw / inject_Z nh)%Q) in *.
  assert (Zq1 : (1 <= inject_Z z)%Q)
    by (change 1%Q with (inject_Z 1); rewrite <- Zle_Qle; lia).
  assert (Zq2 : (inject_Z z <= inject_Z (2 ^ 17))%Q)
    by (rewrite <- Zle_Qle; lia).
  change (inject_Z (2 ^ 17)) with 131072%Q in Zq2.
  assert (Cz : (clamp (inject_Z z) == inject_Z z)%Q)
    by (apply clamp_small; pow2_eval; lra).
  assert (RZ : rnd (inject_Z z) = of_Z z).
  { apply rnd_Z. assert (2 ^ 17 <= 2 ^ 53) by (apply Z.leb_le; reflexivity).
    lia. }
  destruct (Z.eq_dec nw nh) as [Enw | Nnw].
  - (* a square image: the ratio is 1 *)
    assert (E1 : a = 1%Q).
    { assert (R1 : rnd A = Fin 1).
      { rewrite (rnd_comp A 1); [vm_compute; reflexivity|].
        unfold A. rewrite Enw. field. lra. }
      rewrite Ra in R1. injection R1 as R1. exact R1. }
    subst a.
    assert (M : mul (of_Z z) (Fin 1) = of_Z z).
    { unfold of_Z at 1. rewrite mul_Fin.
      rewrite (rnd_comp _ (inject_Z z)); [exact RZ|].
      rewrite Cz, (clamp_small 1) by (pow2_eval; lra). ring. }
    assert (D : div (of_Z z) (Fin 1) = of_Z z).
    { unfold of_Z at 1. rewrite div_Fin by lra.
      rewrite (rnd_comp _ (inject_Z z)); [exact RZ|].
      rewrite Cz, (clamp_small 1) by (pow2_eval; lra). field. }
    rewrite M, round_of_Z, D. apply round_of_Z.
  - (* a wider image: the ratio is at least 1 + 2 ^ -32 *)
    assert (Q1 : (inject_Z (nh + 1) <= inject_Z nw)%Q)
      by (rewrite <- Zle_Qle; unfold nw, nh in *; lia).
    to_Q Q1.
    assert (A3 : (4294967297 # 4294967296 <= A)%Q).
    { unfold A. apply Qle_shift_div_l; [lra|]. pow2_eval. lra. }
    assert (A4 : (4294967297 # 4294967296 <= a)%Q).
    { pose proof (rnd_mono _ _ A3) as M. rewrite Ra in M.
      replace (rnd (4294967297 # 4294967296))
        with (Fin (4294967297 # 4294967296)) in M
        by (vm_compute; reflexivity).
      exact M. }
    assert (A5 : (a <= pow2 33)%Q) by (pow2_eval; lra).
    assert (Pa : (0 < a)%Q) by lra.
    assert (Ca : (clamp a == a)%Q) by (apply clamp_small; pow2_eval; lra).
    set (za := (inject_Z z * a)%Q).
    assert (ZA1 : (1 * a <= za)%Q)
      by (unfold za; apply Qmult_le_compat_r; lra).
    assert (ZA2 : (za <= 131072 * a)%Q)
      by (unfold za; apply Qmult_le_compat_r; lra).
    destruct (rnd_rel_mid za) as (c1 & E1 & L1 & U1);
      [pow2_eval; lra | pow2_eval; lra |].
    assert (M : mul (of_Z z) (Fin a) = Fin c1).
    { unfold of_Z. rewrite mul_Fin, <- E1. apply rnd_comp.
      rewrite Cz, Ca. reflexivity. }
    rewrite M. destruct (round_bounds c1) as (w & Ew & Lw & Uw). rewrite Ew.
    assert (Wq1 : (1 <= inject_Z w)%Q).
    { change 1%Q with (inject_Z 1). rewrite <- Zle_Qle.
      assert (G : (inject_Z 0 < inject_Z w)%Q)
        by (change (inject_Z 0) with 0%Q; pow2_eval; lra).
      rewrite <- Zlt_Qlt in G. lia. }
    assert (Cw : (clamp (inject_Z w) == inject_Z w)%Q)
      by (apply clamp_small; pow2_eval; lra).
    set (s := (inject_Z w / a)%Q).
    assert (S1 : (inject_Z z * (1 - pow2 (-53)) - (4294967296 # 8589934594)
                  <= s)%Q).
    { unfold s. apply Qle_shift_div_l; [exact Pa|]. fold za in L1, U1.
      setoid_replace ((inject_Z z * (1 - pow2 (-53))
                       - (4294967296 # 8589934594)) * a)%Q
        with (za * (1 - pow2 (-53)) - (4294967296 # 8589934594) * a)%Q
        by (unfold za; ring).
      pow2_eval. lra. }
    assert (S2 : (s <= inject_Z z * (1 + pow2 (-53))
                       + (4294967296 # 8589934594))%Q).
    { unfold s. apply Qle_shift_div_r; [exact Pa|].
      setoid_replace ((inject_Z z * (1 + pow2 (-53))
                       + (4294967296 # 8589934594)) * a)%Q
        with (za * (1 + pow2 (-53)) + (4294967296 # 8589934594) * a)%Q
        by (unfold za; ring).
      pow2_eval. lra. }
    destruct (rnd_rel_mid s) as (c2 & E2 & L2 & U2).
    + unfold s. apply Qle_shift_div_l; [exact Pa|]. pow2_eval. lra.
    + pow2_eval. lra.
    + assert (D : div (of_Z w) (Fin a) = Fin c2).
      { unfold of_Z. rewrite div_Fin by lra. rewrite <- E2.
        apply rnd_comp. rewrite Cw, Ca. reflexivity. }
      rewrite D. pow2_eval. apply round_unique; lra.
Qed.

(** X8.  For an image at least as wide as it is high, keep-aspect on and
    percent off, a height edit to an integer from 0 to [2 ^ 17] is honoured:
    after any edits ending in it, the output has the height typed and the
    width shown in the width field. *)
Theorem landscape_height_edit
  (toBlob : Canvas -> string -> num -> option Blob)
  (st : State) (d : Dom) (i : Image) (c : Canvas) (es : list Edit)
  (v : string) (z : Z) :
  image st = Some i -> canvasRef d = Some c ->
  keepAspect st = true -> usePercent st = false ->
  (0 < naturalHeight i)%N -> (naturalHeight i <= naturalWidth i)%N ->
  or_zero (Number v) = of_Z z -> 0 <= z <= 2 ^ 17 ->
  let st' := edits st (es ++ [EditHeight v]) in
  height st' = of_Z z
  /\ pipeline_size toBlob st' d (width st', of_Z z).
Proof.
  intros Hi Hc Hk Hp H HW Ev Hz st'.
  destruct (edits_frame es st) as (A & B & C).
  rewrite Hi in A. rewrite Hk in B. rewrite Hp in C.
  assert (E : st' = commit (edits st es)
                      [setHeight (or_zero (Number v));
                       setWidth (Math_round
                                   (mul (or_zero (Number v))
                                        (div (of_N (naturalWidth i))
                                             (of_N (naturalHeight i)))))]).
  { unfold st'. rewrite edits_snoc. apply edit_height_state; assumption. }
  rewrite E. split; [exact Ev|].
  set (s := commit _ _).
  replace (width s, of_Z z) with (target s i);
    [apply (resize_sizes toBlob s d i c); [exact A | exact Hc]|].
  rewrite (target_locked s i C B). f_equal.
  unfold s. cbn [commit fold_left apply_setter width].
  rewrite Ev. apply round_trip_landscape; assumption.
Qed.

(** X9.  With keep-aspect on and an image loaded, percent off, the two size
    fields after a width edit are exactly the size the pipeline works at,
    whatever the image and the value typed. *)
Theorem width_edit_fields_are_output
  (toBlob : Canvas -> string -> num -> option Blob)
  (st : State) (d : Dom) (i : Image) (c : Canvas) (v : string) :
  image st = Some i -> canvasRef d = Some c ->
  keepAspect st = true -> usePercent st = false ->
  let st' := edit st (EditWidth v) in
  pipeline_size toBlob st' d (width st', height st').
Proof.
  intros Hi Hc Hk Hp st'.
  destruct (edit_frame st (EditWidth v)) as (A & B & C).
  fold st' in A, B, C. rewrite Hi in A. rewrite Hk in B. rewrite Hp in C.
  replace (_, _) with (target st' i);
    [apply (resize_sizes toBlob st' d i c); assumption|].
  rewrite (target_locked st' i C B). f_equal.
  unfold st'. rewrite (edit_width_state st i v Hk Hi). reflexivity.
Qed.

(** X10.  With keep-aspect on and an image loaded, an edit overwrites both
    size fields: after any edits the two fields are what the last edit alone
    would have left. *)
Theorem last_edit_decides
  (st : State) (i : Image) (es : list Edit) (e : Edit) :
  image st = Some i -> keepAspect st = true ->
  width (edits st (es ++ [e])) = width (edit st e)
  /\ height (edits st (es ++ [e])) = height (edit st e).
Proof.
  intros Hi Hk. rewrite edits_snoc.
  destruct (edits_frame es st) as (A & B & _).
  rewrite Hi in A. rewrite Hk in B.
  destruct e as [v | v].
  - rewrite (edit_width_state _ i v B A), (edit_width_state _ i v Hk Hi).
    split; reflexivity.
  - rewrite (edit_height_state _ i v B A), (edit_height_state _ i v Hk Hi).
    split; reflexivity.
Qed.

Lemma edit_free (s : State) (e : Edit) :
  keepAspect s = false \/ image s = None ->
  edit s e
  = match e with
    | EditWidth v => commit s [setWidth (or_zero (Number v))]
    | EditHeight v => commit s [setHeight (or_zero (Number v))]
    end.
Proof.
  intros H. destruct e; unfold edit, handleWidthChange, handleHeightChange;
    destruct H as [H | H]; rewrite H; try reflexivity;
    destruct (keepAspect s); reflexivity.
Qed.

(** X11.  With keep-aspect off, or with no image loaded, the two fields are
    independent: after any edits the width is the value of the last width
    edit, or the old width without one, and the height likewise. *)
Theorem free_edits_are_independent (es : list Edit) (st : State) :
  keepAspect st = false \/ image st = None ->
  width (edits st es) = last_width es (width st)
  /\ height (edits st es) = last_height es (height st).
Proof.
  revert st. induction es as [|e es IH]; intros st H; [split; reflexivity|].
  cbn [edits fold_left]. fold (edits (edit st e) es).
  assert (H' : keepAspect (edit st e) = false \/ image (edit st e) = None).
  { destruct (edit_frame st e) as (A & B & _). rewrite A, B. exact H. }
  destruct (IH _ H') as [Iw Ih]. rewrite Iw, Ih.
  rewrite (edit_free st e H). destruct e; split; reflexivity.
Qed.

Lemma or_zero_not_NaN (x : num) : is_NaN (or_zero x) = false.
Proof.
  unfold or_zero. destruct x as [q | | |]; cbn; try reflexivity.
  destruct (negb (Qnum q =? 0)); reflexivity.
Qed.

Lemma round_is_NaN (x : num) : is_NaN (Math_round x) = is_NaN x.
Proof. destruct x; reflexivity. Qed.

Lemma rnd_is_NaN (q : Q) : is_NaN (rnd q) = false.
Proof.
  destruct (rnd q) eqn:R; try reflexivity.
  exfalso. exact (rnd_not_NaN q R).
Qed.

Lemma div_pos_not_NaN (n : num) (a : Q) :
  Qsign a = Gt -> is_NaN n = false -> is_NaN (div n (Fin a)) = false.
Proof.
  intros Sa Hn. destruct n; cbn [div]; try rewrite Sa; try reflexivity.
  - apply rnd_is_NaN.
  - discriminate.
Qed.

Lemma mul_pos_not_NaN (n : num) (a : Q) :
  Qsign a = Gt -> is_NaN n = false -> is_NaN (mul n (Fin a)) = false.
Proof.
  intros Sa Hn. destruct n; cbn [mul]; try rewrite Sa; try reflexivity.
  - apply rnd_is_NaN.
  - discriminate.
Qed.

Lemma edit_keeps_numbers (st : State) (e : Edit) :
  (forall i, image st = Some i ->
             (0 < naturalWidth i)%N /\ (0 < naturalHeight i)%N) ->
  is_NaN (width st) = false -> is_NaN (height st) = false ->
  is_NaN (width (edit st e)) = false /\ is_NaN (height (edit st e)) = false.
Proof.
  intros Hpos Hw Hh.
  destruct (keepAspect st) eqn:Hk; [destruct (image st) as [i|] eqn:Hi|].
  - destruct (Hpos i eq_refl) as [W H].
    destruct (aspect_pos i W H) as (a & Ea & Sa).
    destruct e as [v | v].
    + rewrite (edit_width_state st i v Hk Hi), Ea.
      cbn [commit fold_left apply_setter width height].
      split; [apply or_zero_not_NaN|].
      rewrite round_is_NaN. apply div_pos_not_NaN, or_zero_not_NaN. exact Sa.
    + rewrite (edit_height_state st i v Hk Hi), Ea.
      cbn [commit fold_left apply_setter width height].
      split; [|apply or_zero_not_NaN].
      rewrite round_is_NaN. apply mul_pos_not_NaN, or_zero_not_NaN. exact Sa.
  - rewrite (edit_free st e (or_intror Hi)).
    destruct e; cbn; split; try assumption; apply or_zero_not_NaN.
  - rewrite (edit_free st e (or_introl Hk)).
    destruct e; cbn; split; try assumption; apply or_zero_not_NaN.
Qed.

(** X12.  As long as the loaded image, if any, has positive natural
    dimensions, no sequence of edits, whatever is typed, puts [NaN] into the
    width or the height field. *)
Theorem edits_never_store_NaN (es : list Edit) (st : State) :
  (forall i, image st = Some i ->
             (0 < naturalWidth i)%N /\ (0 < naturalHeight i)%N) ->
  is_NaN (width st) = false -> is_NaN (height st) = false ->
  is_NaN (width (edits st es)) = false
  /\ is_NaN (height (edits st es)) = false.
Proof.
  revert st. induction es as [|e es IH]; intros st Hpos Hw Hh;
    [split; assumption|].
  cbn [edits fold_left]. fold (edits (edit st e) es).
  destruct (edit_keeps_numbers st e Hpos Hw Hh) as [Hw' Hh'].
  apply IH; try assumption.
  intros i Hi. apply Hpos.
  rewrite <- (proj1 (edit_frame st e)). exact Hi.
Qed.

Lemma edit_frame_full (st : State) (e : Edit) :
  file (edit st e) = file st
  /\ image (edit st e) = image st
  /\ previewUrl (edit st e) = previewUrl st
  /\ percent (edit st e) = percent st
  /\ usePercent (edit st e) = usePercent st
  /\ keepAspect (edit st e) = keepAspect st
  /\ quality (edit st e) = quality st
  /\ format (edit st e) = format st.
Proof.
  destruct e; unfold edit, handleWidthChange, handleHeightChange;
    destruct (keepAspect st) eqn:K, (image st) eqn:I; cbn;
    repeat split; assumption.
Qed.

(** X13.  Size edits touch the width and the height only: after any edits
    the eight other state cells are as they were. *)
Theorem edits_frame_all (es : list Edit) (st : State) :
  file (edits st es) = file st
  /\ image (edits st es) = image st
  /\ previewUrl (edits st es) = previewUrl st
  /\ percent (edits st es) = percent st
  /\ usePercent (edits st es) = usePercent st
  /\ keepAspect (edits st es) = keepAspect st
  /\ quality (edits st es) = quality st
  /\ format (edits st es) = format st.
Proof.
  revert st. induction es as [|e es IH]; intros st; [repeat split|].
  cbn [edits fold_left]. fold (edits (edit st e) es).
  destruct (IH (edit st e)) as (A & B & C & D & E & F & G & H).
  rewrite A, B, C, D, E, F, G, H.
  apply edit_frame_full.
Qed.

(** ** Further properties: Clear, drop and preview *)

(** X14.  After Clear the preview and the download button do nothing at all,
    whatever was loaded before: no setter, no event, no object URL, the
    canvas as it was. *)
Theorem clear_disables_actions
  (toBlob : Canvas -> string -> num -> option Blob)
  (st : State) (d : Dom) :
  handleResizeClick toBlob (commit st (handleClear st)) d = ([], d)
  /\ handleDownload toBlob (commit st (handleClear st)) d = ([], d).
Proof. split; reflexivity. Qed.

(** X15.  Of the files dropped only the first is looked at.  It is stored
    exactly when its type starts with [image/]; otherwise the alert is shown
    and nothing is stored, whatever the later files are.  An empty drop does
    nothing. *)
Theorem drop_takes_first_file
  (f : File) (rest : list File) (st : State) (d : Dom) :
  handleDrop [] st d = ([], d)
  /\ ((String.prefix "image/" (f_type f) = true
       /\ handleDrop (f :: rest) st d = ([setFile (Some f)], d))
      \/ (String.prefix "image/" (f_type f) = false
          /\ handleDrop (f :: rest) st d
             = ([], emit (Alert "Please upload an image file.") d))).
Proof.
  split; [reflexivity|].
  unfold handleDrop, handleFile. cbn [hd_error].
  destruct (String.prefix "image/" (f_type f)); [left | right];
    split; reflexivity.
Qed.

(** X16.  When the pipeline resolves with a result, the preview handler opens
    one new tab on the object URL just made and does nothing else: it queues
    no state change and, unlike the download handler, never revokes the
    URL. *)
Theorem preview_opens_fresh_url
  (toBlob : Canvas -> string -> num -> option Blob)
  (st : State) (d : Dom) (r : Result) :
  fst (resizeToBlobUrl toBlob st d) = Fulfilled (Some r) ->
  r_url r = next_url d
  /\ fst (handleResizeClick toBlob st d) = []
  /\ page (snd (handleResizeClick toBlob st d))
     = page d ++ [WindowOpen (next_url d) "_blank"]
  /\ next_url (snd (handleResizeClick toBlob st d)) = S (next_url d).
Proof.
  unfold handleResizeClick, resizeToBlobUrl.
  destruct (image st) as [i|]; [|discriminate].
  destruct (canvasRef d); [|discriminate].
  destruct (target st i) as [w h].
  destruct (toBlob _ _ _); [|discriminate].
  cbn. intros H. injection H as <-. cbn. repeat split; reflexivity.
Qed.

(** ** Further properties: what is typed and what is shown *)

(** X17.  A value of white space only is stored as 0 by both size handlers,
    like the empty value. *)
Theorem blank_input_stores_zero (v : string) (st : State) :
  blank v = true ->
  width (commit st (handleWidthChange v st)) = of_Z 0
  /\ height (commit st (handleHeightChange v st)) = of_Z 0.
Proof.
  intros H. unfold handleWidthChange, handleHeightChange.
  rewrite (Number_blank v H).
  split; destruct (keepAspect st), (image st); reflexivity.
Qed.

(** X18.  Typing into a size field the integer it already shows stores that
    same integer again: the text shown for an integer width or height up to
    [2 ^ 53] in magnitude reads back, through [Number(v) || 0], as the value
    it came from. *)
Theorem shown_integer_reads_back (z : Z) (st : State) :
  Z.abs z <= 2 ^ 53 ->
  (width st = of_Z z ->
   width (commit st (handleWidthChange (toString (width st)) st)) = width st)
  /\ (height st = of_Z z ->
      height (commit st (handleHeightChange (toString (height st)) st))
      = height st).
Proof.
  intros Hz. split; intros E; rewrite E;
    unfold handleWidthChange, handleHeightChange;
    rewrite (Number_toString z Hz), or_zero_of_Z;
    destruct (keepAspect st), (image st); reflexivity.
Qed.

(** X19.  In percent mode the size fields play no part: after any edits of
    the width and height fields the pipeline does exactly what it did
    before, to the canvas and in its result. *)
Theorem percent_mode_ignores_edits
  (toBlob : Canvas -> string -> num -> option Blob)
  (st : State) (d : Dom) (es : list Edit) :
  usePercent st = true ->
  resizeToBlobUrl toBlob (edits st es) d = resizeToBlobUrl toBlob st d.
Proof.
  revert st. induction es as [|e es IH]; intros st Hp; [reflexivity|].
  cbn [edits fold_left]. fold (edits (edit st e) es).
  destruct (edit_frame_full st e) as (_ & A & _ & B & C & _ & D & E).
  rewrite IH by (rewrite C; exact Hp).
  unfold resizeToBlobUrl, target. rewrite A, B, C, D, E, Hp. reflexivity.
Qed.

(** ** Further properties: the sliders *)

(** X20.  In percent mode, once the slider has stored an integer percent
    [k], the output is [(naturalWidth * k + 50) / 100] by
    [(naturalHeight * k + 50) / 100] in integer division, as long as neither
    [naturalWidth * k / 100] nor [naturalHeight * k / 100] is exactly halfway
    between two integers. *)
Theorem percent_slider_formula
  (toBlob : Canvas -> string -> num -> option Blob)
  (st : State) (d : Dom) (i : Image) (c : Canvas) (v : string) (k : Z) :
  image st = Some i -> canvasRef d = Some c -> usePercent st = true ->
  Number v = of_Z k -> 1 <= k <= 200 ->
  (Z.of_N (naturalWidth i) * k + 50) mod 100 <> 0 ->
  (Z.of_N (naturalHeight i) * k + 50) mod 100 <> 0 ->
  pipeline_size toBlob (commit st (handlePercentChange v)) d
    (of_Z ((Z.of_N (naturalWidth i) * k + 50) / 100),
     of_Z ((Z.of_N (naturalHeight i) * k + 50) / 100)).
Proof.
  intros Hi Hc Hp Ev Hk Tw Th. unfold handlePercentChange. rewrite Ev.
  set (st' := commit st _).
  replace (_, _) with (target st' i);
    [apply (resize_sizes toBlob st' d i c); assumption|].
  rewrite (target_percent st' i Hp).
  change (percent st') with (of_Z k).
  destruct (round_percent (naturalWidth i) k (naturalWidth_lt i) Hk)
    as (w & Ew & W1 & _).
  destruct (round_percent (naturalHeight i) k (naturalHeight_lt i) Hk)
    as (h & Eh & H1 & _).
  rewrite Ew, Eh, (W1 Tw), (H1 Th). reflexivity.
Qed.

(** X21.  For a quality of [k] twentieths as binary64 has it, [k] from 1 to
    20 as the steps of the quality slider store it, the label under the
    slider shows [5 * k] percent. *)
Theorem quality_label_steps (st : State) (v : string) (k : Z) :
  1 <= k <= 20 -> Number v = rnd (k # 20) ->
  quality_label (commit st (handleQualityChange v))
  = (Z_to_string (5 * k) ++ "%")%string.
Proof.
  intros Hk Ev. unfold quality_label, handleQualityChange.
  cbn [commit fold_left apply_setter quality]. rewrite Ev. clear Ev.
  assert (C : k = 1 \/ k = 2 \/ k = 3 \/ k = 4 \/ k = 5 \/ k = 6 \/ k = 7
              \/ k = 8 \/ k = 9 \/ k = 10 \/ k = 11 \/ k = 12 \/ k = 13
              \/ k = 14 \/ k = 15 \/ k = 16 \/ k = 17 \/ k = 18 \/ k = 19
              \/ k = 20) by lia.
  repeat (destruct C as [-> | C]; [vm_compute; reflexivity|]).
  subst k. vm_compute. reflexivity.
Qed.

(** ** Instances of the further properties *)

Lemma fresh_load_identity_witness :
  canvasRef dom0 = Some blank_canvas
  /\ (0 < naturalWidth (picture 800 600))%N
  /\ (0 < naturalHeight (picture 800 600))%N
  /\ usePercent initial = false
  /\ pipeline_size encoder_ok
       (commit initial (img_onload initial (picture 800 600))) dom0
       (of_Z 800, of_Z 600)
  /\ usePercent full_percent = true
  /\ usePercent unlocked = false
  /\ width (commit unlocked (img_onload full_percent (picture 10 10)))
     = of_Z 800.
Proof.
  do 4 (split; [reflexivity|]).
  split; [|do 2 (split; [reflexivity|])].
  - apply (fresh_load_identity encoder_ok initial initial dom0
             (picture 800 600) blank_canvas eq_refl eq_refl eq_refl);
      reflexivity.
  - apply (fresh_load_identity encoder_ok full_percent unlocked dom0
             (picture 10 10) blank_canvas eq_refl eq_refl eq_refl).
    reflexivity.
Defined.

Lemma percent_hundred_identity_witness :
  image full_percent = Some (picture 800 600)
  /\ canvasRef dom0 = Some blank_canvas
  /\ usePercent full_percent = true
  /\ percent full_percent = of_Z 100
  /\ pipeline_size encoder_ok full_percent dom0 (of_Z 800, of_Z 600).
Proof.
  do 4 (split; [reflexivity|]).
  apply (percent_hundred_identity encoder_ok full_percent dom0
           (picture 800 600) blank_canvas eq_refl eq_refl eq_refl eq_refl).
Defined.

Lemma integer_multiple_keeps_aspect_witness :
  image (edits landscape [EditWidth "1600"]) = Some (picture 800 600)
  /\ canvasRef dom0 = Some blank_canvas
  /\ usePercent (edits landscape [EditWidth "1600"]) = false
  /\ keepAspect (edits landscape [EditWidth "1600"]) = true
  /\ (0 < naturalWidth (picture 800 600))%N
  /\ (0 < naturalHeight (picture 800 600))%N
  /\ 0 <= 2 <= 2 ^ 17
  /\ width (edits landscape [EditWidth "1600"]) = of_Z (2 * 800)
  /\ pipeline_size encoder_ok (edits landscape [EditWidth "1600"]) dom0
       (of_Z 1600, of_Z 1200).
Proof.
  assert (K : 0 <= 2 <= 2 ^ 17) by (split; [lia | apply Z.leb_le; reflexivity]).
  assert (E : width (edits landscape [EditWidth "1600"]) = of_Z (2 * 800))
    by (vm_compute; reflexivity).
  do 6 (split; [reflexivity|]). split; [exact K|]. split; [exact E|].
  apply (integer_multiple_keeps_aspect encoder_ok
           (edits landscape [EditWidth "1600"]) dom0 (picture 800 600)
           blank_canvas 2 eq_refl eq_refl eq_refl eq_refl eq_refl eq_refl
           K E).
Defined.

Lemma percent_within_half_witness :
  image half_size = Some (picture 800 600)
  /\ canvasRef dom0 = Some blank_canvas
  /\ usePercent half_size = true
  /\ percent half_size = Fin (inject_Z 50)
  /\ (1 <= inject_Z 50)%Q /\ (inject_Z 50 <= 200)%Q
  /\ exists w h : Z,
       pipeline_size encoder_ok half_size dom0 (of_Z w, of_Z h)
       /\ (inject_Z 800 * inject_Z 50 / 100 - ((1 # 2) + (1 # 100000))
           < inject_Z w
           <= inject_Z 800 * inject_Z 50 / 100 + ((1 # 2) + (1 # 100000)))%Q
       /\ (inject_Z 600 * inject_Z 50 / 100 - ((1 # 2) + (1 # 100000))
           < inject_Z h
           <= inject_Z 600 * inject_Z 50 / 100 + ((1 # 2) + (1 # 100000)))%Q.
Proof.
  assert (L : (1 <= inject_Z 50)%Q) by (unfold Qle; simpl; lia).
  assert (U : (inject_Z 50 <= 200)%Q) by (unfold Qle; simpl; lia).
  do 4 (split; [reflexivity|]). split; [exact L|]. split; [exact U|].
  apply (percent_within_half encoder_ok half_size dom0 (picture 800 600)
           blank_canvas (inject_Z 50) eq_refl eq_refl eq_refl eq_refl L U).
Defined.

Lemma percent_monotone_witness :
  image half_size = Some (picture 800 600)
  /\ image full_percent = Some (picture 800 600)
  /\ canvasRef dom0 = Some blank_canvas
  /\ usePercent half_size = true /\ usePercent full_percent = true
  /\ percent half_size = Fin (inject_Z 50)
  /\ percent full_percent = Fin (inject_Z 100)
  /\ (inject_Z 50 <= inject_Z 100)%Q
  /\ pipeline_size encoder_ok half_size dom0 (of_Z 400, of_Z 300)
  /\ pipeline_size encoder_ok full_percent dom0 (of_Z 800, of_Z 600)
  /\ 400 <= 800 /\ 300 <= 600.
Proof.
  assert (L : (inject_Z 50 <= inject_Z 100)%Q)
    by (unfold Qle; simpl; lia).
  assert (P1 : pipeline_size encoder_ok half_size dom0 (of_Z 400, of_Z 300)).
  { replace (of_Z 400, of_Z 300) with (target half_size (picture 800 600))
      by (vm_compute; reflexivity).
    apply (resize_sizes encoder_ok half_size dom0 (picture 800 600)
             blank_canvas eq_refl eq_refl). }
  assert (P2 : pipeline_size encoder_ok full_percent dom0
                 (of_Z 800, of_Z 600)).
  { replace (of_Z 800, of_Z 600) with (target full_percent (picture 800 600))
      by (vm_compute; reflexivity).
    apply (resize_sizes encoder_ok full_percent dom0 (picture 800 600)
             blank_canvas eq_refl eq_refl). }
  do 7 (split; [reflexivity|]).
  split; [exact L|]. split; [exact P1|]. split; [exact P2|].
  apply (percent_monotone encoder_ok half_size full_percent dom0
           (picture 800 600) blank_canvas (inject_Z 50) (inject_Z 100)
           400 300 800 600
           eq_refl eq_refl eq_refl eq_refl eq_refl eq_refl eq_refl L P1 P2).
Defined.

Lemma slider_range_bounds_witness :
  image half_size = Some (picture 800 600)
  /\ canvasRef dom0 = Some blank_canvas
  /\ usePercent half_size = true
  /\ percent half_size = Fin (inject_Z 50)
  /\ (1 <= inject_Z 50)%Q /\ (inject_Z 50 <= 200)%Q
  /\ exists w h : Z,
       pipeline_size encoder_ok half_size dom0 (of_Z w, of_Z h)
       /\ 0 <= w <= 2 * 800 /\ 0 <= h <= 2 * 600.
Proof.
  assert (L : (1 <= inject_Z 50)%Q) by (unfold Qle; simpl; lia).
  assert (U : (inject_Z 50 <= 200)%Q) by (unfold Qle; simpl; lia).
  do 4 (split; [reflexivity|]). split; [exact L|]. split; [exact U|].
  apply (slider_range_bounds encoder_ok half_size dom0 (picture 800 600)
           blank_canvas (inject_Z 50) eq_refl eq_refl eq_refl eq_refl L U).
Defined.

Lemma aspect_within_half_witness :
  image landscape = Some (picture 800 600)
  /\ canvasRef dom0 = Some blank_canvas
  /\ usePercent landscape = false /\ keepAspect landscape = true
  /\ width landscape = Fin (inject_Z 800)
  /\ (0 < naturalWidth (picture 800 600))%N
  /\ (0 < naturalHeight (picture 800 600))%N
  /\ (1 <= inject_Z 800)%Q /\ (inject_Z 800 <= inject_Z (2 ^ 53))%Q
  /\ exists h : Z,
       pipeline_size encoder_ok landscape dom0 (Fin (inject_Z 800), of_Z h)
       /\ (inject_Z 800 * inject_Z 600 / inject_Z 800 * (1 - pow2 (-51))
           - (1 # 2) < inject_Z h)%Q
       /\ (inject_Z h
           <= inject_Z 800 * inject_Z 600 / inject_Z 800 * (1 + pow2 (-51))
              + (1 # 2))%Q.
Proof.
  assert (L : (1 <= inject_Z 800)%Q) by (unfold Qle; simpl; lia).
  assert (U : (inject_Z 800 <= inject_Z (2 ^ 53))%Q)
    by (rewrite <- Zle_Qle; apply Z.leb_le; reflexivity).
  do 7 (split; [reflexivity|]). split; [exact L|]. split; [exact U|].
  apply (aspect_within_half encoder_ok landscape dom0 (picture 800 600)
           blank_canvas (inject_Z 800)
           eq_refl eq_refl eq_refl eq_refl eq_refl eq_refl eq_refl L U).
Defined.

Lemma landscape_height_edit_witness :
  image landscape = Some (picture 800 600)
  /\ canvasRef dom0 = Some blank_canvas
  /\ keepAspect landscape = true /\ usePercent landscape = false
  /\ (0 < naturalHeight (picture 800 600))%N
  /\ (naturalHeight (picture 800 600) <= naturalWidth (picture 800 600))%N
  /\ or_zero (Number "300") = of_Z 300
  /\ 0 <= 300 <= 2 ^ 17
  /\ height (edits landscape ([EditWidth "100"] ++ [EditHeight "300"]))
     = of_Z 300
  /\ pipeline_size encoder_ok
       (edits landscape ([EditWidth "100"] ++ [EditHeight "300"])) dom0
       (of_Z 400, of_Z 300).
Proof.
  assert (L : (naturalHeight (picture 800 600)
               <= naturalWidth (picture 800 600))%N)
    by (apply N.leb_le; reflexivity).
  assert (K : 0 <= 300 <= 2 ^ 17)
    by (split; [lia | apply Z.leb_le; reflexivity]).
  assert (E : or_zero (Number "300") = of_Z 300) by (vm_compute; reflexivity).
  assert (W : width (edits landscape ([EditWidth "100"] ++ [EditHeight "300"]))
              = of_Z 400) by (vm_compute; reflexivity).
  do 5 (split; [reflexivity|]). split; [exact L|]. split; [exact E|].
  split; [exact K|].
  rewrite <- W.
  apply (landscape_height_edit encoder_ok landscape dom0 (picture 800 600)
           blank_canvas [EditWidth "100"] "300" 300
           eq_refl eq_refl eq_refl eq_refl eq_refl L E K).
Defined.

Lemma width_edit_fields_are_output_witness :
  image landscape = Some (picture 800 600)
  /\ canvasRef dom0 = Some blank_canvas
  /\ keepAspect landscape = true /\ usePercent landscape = false
  /\ pipeline_size encoder_ok (edit landscape (EditWidth "400")) dom0
       (of_Z 400, of_Z 300).
Proof.
  assert (W : width (edit landscape (EditWidth "400")) = of_Z 400)
    by (vm_compute; reflexivity).
  assert (H : height (edit landscape (EditWidth "400")) = of_Z 300)
    by (vm_compute; reflexivity).
  do 4 (split; [reflexivity|]). rewrite <- W, <- H.
  apply (width_edit_fields_are_output encoder_ok landscape dom0
           (picture 800 600) blank_canvas "400"
           eq_refl eq_refl eq_refl eq_refl).
Defined.

Lemma last_edit_decides_witness :
  image landscape = Some (picture 800 600)
  /\ keepAspect landscape = true
  /\ width (edits landscape ([EditHeight "5"] ++ [EditWidth "400"]))
     = of_Z 400
  /\ height (edits landscape ([EditHeight "5"] ++ [EditWidth "400"]))
     = of_Z 300.
Proof.
  assert (W : width (edit landscape (EditWidth "400")) = of_Z 400)
    by (vm_compute; reflexivity).
  assert (H : height (edit landscape (EditWidth "400")) = of_Z 300)
    by (vm_compute; reflexivity).
  do 2 (split; [reflexivity|]). rewrite <- W, <- H.
  apply (last_edit_decides landscape (picture 800 600) [EditHeight "5"]
           (EditWidth "400") eq_refl eq_refl).
Defined.

Lemma free_edits_are_independent_witness :
  (keepAspect unlocked = false \/ image unlocked = None)
  /\ width (edits unlocked [EditWidth "500"; EditHeight "500"]) = of_Z 500
  /\ height (edits unlocked [EditWidth "500"; EditHeight "500"]) = of_Z 500.
Proof.
  destruct (free_edits_are_independent [EditWidth "500"; EditHeight "500"]
              unlocked (or_introl eq_refl)) as [W H].
  split; [left; reflexivity|].
  split; [rewrite W | rewrite H]; vm_compute; reflexivity.
Defined.

Lemma edits_never_store_NaN_witness :
  (forall i, image landscape = Some i ->
             (0 < naturalWidth i)%N /\ (0 < naturalHeight i)%N)
  /\ is_NaN (width landscape) = false
  /\ is_NaN (height landscape) = false
  /\ is_NaN (width (edits landscape [EditWidth "abc"; EditHeight "Infinity"]))
     = false
  /\ is_NaN (height (edits landscape [EditWidth "abc"; EditHeight "Infinity"]))
     = false.
Proof.
  assert (P : forall i, image landscape = Some i ->
                        (0 < naturalWidth i)%N /\ (0 < naturalHeight i)%N).
  { intros i H. injection H as <-. split; reflexivity. }
  split; [exact P|]. do 2 (split; [reflexivity|]).
  apply (edits_never_store_NaN [EditWidth "abc"; EditHeight "Infinity"]
           landscape P eq_refl eq_refl).
Defined.

Lemma preview_opens_fresh_url_witness :
  fst (resizeToBlobUrl encoder_ok webp_640 dom0)
  = Fulfilled (Some {| r_blob := {| blob_type := "image/webp";
                                    blob_size := 1 |};
                       r_url := 1%nat;
                       r_width := of_Z 640; r_height := of_Z 480 |})
  /\ page (snd (handleResizeClick encoder_ok webp_640 dom0))
     = [WindowOpen 1%nat "_blank"]
  /\ next_url (snd (handleResizeClick encoder_ok webp_640 dom0)) = 2%nat.
Proof.
  assert (R : fst (resizeToBlobUrl encoder_ok webp_640 dom0)
              = Fulfilled (Some {| r_blob := {| blob_type := "image/webp";
                                                 blob_size := 1 |};
                                   r_url := 1%nat;
                                   r_width := of_Z 640;
                                   r_height := of_Z 480 |}))
    by (vm_compute; reflexivity).
  split; [exact R|].
  exact (proj2 (proj2 (preview_opens_fresh_url encoder_ok webp_640 dom0 _ R))).
Defined.

Lemma blank_input_stores_zero_witness :
  blank "  " = true
  /\ width (commit landscape (handleWidthChange "  " landscape)) = of_Z 0
  /\ height (commit landscape (handleHeightChange "  " landscape)) = of_Z 0.
Proof.
  split; [reflexivity|].
  apply (blank_input_stores_zero "  " landscape eq_refl).
Defined.

Lemma shown_integer_reads_back_witness :
  Z.abs 800 <= 2 ^ 53
  /\ width landscape = of_Z 800
  /\ toString (width landscape) = "800"%string
  /\ width (commit landscape (handleWidthChange "800" landscape))
     = width landscape.
Proof.
  assert (K : Z.abs 800 <= 2 ^ 53) by (apply Z.leb_le; reflexivity).
  split; [exact K|]. split; [reflexivity|].
  split; [vm_compute; reflexivity|].
  exact (proj1 (shown_integer_reads_back 800 landscape K) eq_refl).
Defined.

Lemma percent_mode_ignores_edits_witness :
  usePercent half_size = true
  /\ resizeToBlobUrl encoder_ok
       (edits half_size [EditWidth "5"; EditHeight "7"]) dom0
     = resizeToBlobUrl encoder_ok half_size dom0.
Proof.
  split; [reflexivity|].
  apply (percent_mode_ignores_edits encoder_ok half_size dom0
           [EditWidth "5"; EditHeight "7"] eq_refl).
Defined.

Lemma percent_slider_formula_witness :
  image full_percent = Some (picture 800 600)
  /\ canvasRef dom0 = Some blank_canvas
  /\ usePercent full_percent = true
  /\ Number "33" = of_Z 33
  /\ 1 <= 33 <= 200
  /\ (800 * 33 + 50) mod 100 <> 0
  /\ (600 * 33 + 50) mod 100 <> 0
  /\ pipeline_size encoder_ok (commit full_percent (handlePercentChange "33"))
       dom0 (of_Z 264, of_Z 198).
Proof.
  assert (E : Number "33" = of_Z 33) by (vm_compute; reflexivity).
  assert (K : 1 <= 33 <= 200) by lia.
  assert (Tw : (800 * 33 + 50) mod 100 <> 0) by discriminate.
  assert (Th : (600 * 33 + 50) mod 100 <> 0) by discriminate.
  do 3 (split; [reflexivity|]). split; [exact E|]. split; [exact K|].
  split; [exact Tw|]. split; [exact Th|].
  apply (percent_slider_formula encoder_ok full_percent dom0
           (picture 800 600) blank_canvas "33" 33
           eq_refl eq_refl eq_refl E K Tw Th).
Defined.

Lemma quality_label_steps_witness :
  1 <= 17 <= 20
  /\ Number "0.85" = rnd (17 # 20)
  /\ quality_label (commit landscape (handleQualityChange "0.85"))
     = "85%"%string.
Proof.
  assert (K : 1 <= 17 <= 20) by lia.
  assert (E : Number "0.85" = rnd (17 # 20)) by (vm_compute; reflexivity).
  split; [exact K|]. split; [exact E|].
  apply (quality_label_steps landscape "0.85" 17 K E).
Defined.

(** ** Sizes where the rounding of binary64 shows

    A 120 x 170 image with the width field at 42 gets the height 59, where
    [42 * 170 / 120] is 59.5.  A 1 x 3 image with the width
    [0.16666666666666666] gets the height 1, and with the width
    [2 ^ 52 + 1] a height one above three times the width.  On a
    2279 x 1923 image the height [3545231698122254] comes back one higher.
    A 50 x 50 image at 29 percent gives 14 x 14, where 14.5 is exact, and
    at 1 percent 1 x 1, where 0.5 is exact. *)
Lemma binary64_instances :
  target (edits (loaded (picture 120 170)) [EditWidth "42"]) (picture 120 170)
  = (of_Z 42, of_Z 59)
  /\ snd (target (edits (loaded (picture 1 3))
                    [EditWidth "0.16666666666666666"]) (picture 1 3))
     = of_Z 1
  /\ target (edits (loaded (picture 1 3)) [EditWidth "4503599627370497"])
            (picture 1 3)
     = (of_Z 4503599627370497, of_Z 13510798882111492)
  /\ target (edits (loaded (picture 2279 1923))
               [EditHeight "3545231698122254"]) (picture 2279 1923)
     = (of_Z 4201551242860436, of_Z 3545231698122255)
  /\ target (commit (loaded (picture 50 50))
               [setUsePercent true; setPercent (of_Z 29)]) (picture 50 50)
     = (of_Z 14, of_Z 14)
  /\ target (commit (loaded (picture 50 50))
               [setUsePercent true; setPercent (of_Z 1)]) (picture 50 50)
     = (of_Z 1, of_Z 1).
Proof. repeat split; vm_compute; reflexivity. Qed.
